(** * Hybrid Code Interceptor Sandbox: the security analyzer and the bounded
      executor of [src/index.ts], embedded in Rocq.

    The development follows the source file top-down:
    - [JsString]: JavaScript strings as sequences of UTF-16 code units,
      [String.prototype.split] on a newline and global literal matching;
    - [RegExp]: the fragment of ECMAScript regular expressions the pattern
      catalogue uses, with [RegExp.prototype.test];
    - [Analyzer]: [dangerousPatterns] and [analyzeSecurity];
    - [Executor]: [sandboxConsole] and [executeJavaScript];
    - [Handler]: [handleExecute];
    - [Spec] and [Inputs]: the vocabulary of the statements and the
      concrete inputs they are run on.

    The lemmas come after the definitions, component by component.

    JavaScript numbers that the source divides ([lines.length / 10],
    [(Date.now() - startTime) / 1000]) are modelled by exact rationals. *)

From Stdlib Require Import List Bool Arith NArith ZArith QArith Qminmax Lia.
From Stdlib Require Import Ascii String DecimalString Sorted.
From Stdlib Require Strings.Byte.
Import ListNotations.

Set Implicit Arguments.

(* ================================================================= *)
(** ** JavaScript strings *)

Module JsString.

(** A string is its sequence of UTF-16 code units. *)
Definition t := list N.

Definition of_string (s : string) : t :=
  List.map N_of_ascii (list_ascii_of_string s).

Definition newline : N := 10%N.

(** [s.split('\n')]: the pieces between newlines; never empty. *)
Fixpoint split (s : t) : list t :=
  match s with
  | [] => [ [] ]
  | c :: s' =>
      if N.eqb c newline then [] :: split s'
      else match split s' with
           | l :: ls => (c :: l) :: ls
           | [] => [ [c] ]
           end
  end.

(** [parts.join(sep)]. *)
Fixpoint join (sep : t) (parts : list t) : t :=
  match parts with
  | [] => []
  | [p] => p
  | p :: rest => p ++ sep ++ join sep rest
  end.

Fixpoint starts_with (w s : t) : bool :=
  match w, s with
  | [], _ => true
  | _ :: _, [] => false
  | a :: w', b :: s' => N.eqb a b && starts_with w' s'
  end.

(** [(s.match(/w/g) || []).length] for a literal [w]: the matches are
    found left to right and the search resumes after each match.
    [skip] counts the code units still covered by the last match. *)
Fixpoint count_from (w s : t) (skip : nat) : nat :=
  match s with
  | [] => 0
  | _ :: s' =>
      match skip with
      | S k => count_from w s' k
      | O => if starts_with w s
             then S (count_from w s' (List.length w - 1))
             else count_from w s' 0
      end
  end.

Definition match_count (w s : t) : nat := count_from w s 0.

(** Template substitution [`${n}`] of a number whose value is the
    integer [n], for [n] between -2^53 and 2^53: there the text is the
    decimal digits of [n].  Beyond, JavaScript prints the shortest
    digits that read back as the same number, in exponent notation from
    10^21 on; the statements that mention the text stay within the
    range. *)
Definition of_Z (n : Z) : t := of_string (NilZero.string_of_int (Z.to_int n)).

End JsString.

Definition jsstring : Type := JsString.t.
Definition js : string -> jsstring := JsString.of_string.

(* ================================================================= *)
(** ** Regular expressions *)

Module RegExp.

(** The syntax the catalogue needs: characters, the class [\s],
    sequencing, alternation [|], and the quantifiers [*] and [+].
    [Void] (no match) arises only from derivatives. *)
Inductive regex : Type :=
| Void
| Eps
| Chr (c : N)
| Space
| Cat (r1 r2 : regex)
| Alt (r1 r2 : regex)
| Star (r : regex).

Definition Plus (r : regex) : regex := Cat r (Star r).

(** A literal run of characters. *)
Fixpoint lit_units (w : jsstring) : regex :=
  match w with
  | [] => Eps
  | c :: w' => Cat (Chr c) (lit_units w')
  end.

Definition lit (s : string) : regex := lit_units (js s).

(** A regular expression object: its source and its [i] flag. *)
Record t : Type := mk { source : regex; ignoreCase : bool }.

(** [\s]: WhiteSpace and LineTerminator code units. *)
Definition is_space (c : N) : bool :=
  (N.leb 9 c && N.leb c 13)
  || N.eqb c 32 || N.eqb c 160 || N.eqb c 5760
  || (N.leb 8192 c && N.leb c 8202)
  || N.eqb c 8232 || N.eqb c 8233 || N.eqb c 8239
  || N.eqb c 8287 || N.eqb c 12288 || N.eqb c 65279.

(** Canonicalize of a non-unicode, ignore-case pattern.  Code units
    below 128 map to their upper case.  A code unit from 128 on is
    never canonicalized to one below 128, so against the catalogue's
    ASCII pattern characters leaving it unchanged gives the same
    comparison. *)
Definition canonicalize (ic : bool) (c : N) : N :=
  if ic && N.leb 97 c && N.leb c 122 then (c - 32)%N else c.

Definition chr_match (ic : bool) (p c : N) : bool :=
  N.eqb (canonicalize ic p) (canonicalize ic c).

Fixpoint nullable (r : regex) : bool :=
  match r with
  | Void => false
  | Eps => true
  | Chr _ => false
  | Space => false
  | Cat r1 r2 => nullable r1 && nullable r2
  | Alt r1 r2 => nullable r1 || nullable r2
  | Star _ => true
  end.

(** What remains to be matched after reading [c]. *)
Fixpoint deriv (ic : bool) (c : N) (r : regex) : regex :=
  match r with
  | Void => Void
  | Eps => Void
  | Chr p => if chr_match ic p c then Eps else Void
  | Space => if is_space c then Eps else Void
  | Cat r1 r2 =>
      if nullable r1
      then Alt (Cat (deriv ic c r1) r2) (deriv ic c r2)
      else Cat (deriv ic c r1) r2
  | Alt r1 r2 => Alt (deriv ic c r1) (deriv ic c r2)
  | Star r1 => Cat (deriv ic c r1) (Star r1)
  end.

(** Some prefix of [s] is matched by [r]. *)
Fixpoint match_here (ic : bool) (r : regex) (s : jsstring) : bool :=
  nullable r
  || match s with
     | [] => false
     | c :: s' => match_here ic (deriv ic c r) s'
     end.

(** The unanchored search behind [test]: a match starting at some index. *)
Fixpoint search (ic : bool) (r : regex) (s : jsstring) : bool :=
  match_here ic r s
  || match s with
     | [] => false
     | _ :: s' => search ic r s'
     end.

(** [re.test(s)] for a regular expression without the [g] or [y] flag. *)
Definition test (re : t) (s : jsstring) : bool :=
  search (ignoreCase re) (source re) s.

(** The language of a regular expression, as a relation. *)
Inductive Matches (ic : bool) : regex -> jsstring -> Prop :=
| MEps : Matches ic Eps []
| MChr p c : chr_match ic p c = true -> Matches ic (Chr p) [c]
| MSpace c : is_space c = true -> Matches ic Space [c]
| MCat r1 r2 s1 s2 :
    Matches ic r1 s1 -> Matches ic r2 s2 -> Matches ic (Cat r1 r2) (s1 ++ s2)
| MAltL r1 r2 s : Matches ic r1 s -> Matches ic (Alt r1 r2) s
| MAltR r1 r2 s : Matches ic r2 s -> Matches ic (Alt r1 r2) s
| MStar0 r : Matches ic (Star r) []
| MStarS r s1 s2 :
    Matches ic r s1 -> Matches ic (Star r) s2 -> Matches ic (Star r) (s1 ++ s2).

End RegExp.

(* ================================================================= *)
(** ** The security analyzer *)

Module Analyzer.
Import RegExp.

Inductive Severity : Type := low | medium | high.

Definition Severity_eqb (a b : Severity) : bool :=
  match a, b with
  | low, low | medium, medium | high, high => true
  | _, _ => false
  end.

Record SecurityViolation : Type := {
  line : nat;
  pattern : string;
  description : string;
  severity : Severity
}.

(** An entry of [dangerousPatterns]. *)
Record PatternRule : Type := rule {
  rule_pattern : RegExp.t;
  rule_name : string;
  rule_description : string;
  rule_severity : Severity
}.

Definition ws_star : regex := Star Space.
Definition ws_plus : regex := Plus Space.

Fixpoint seq_re (rs : list regex) : regex :=
  match rs with
  | [] => Eps
  | [r] => r
  | r :: rest => Cat r (seq_re rest)
  end.

Definition re (r : regex) : RegExp.t := RegExp.mk r false.
Definition re_i (r : regex) : RegExp.t := RegExp.mk r true.

Definition dangerousPatterns : list PatternRule := [
  rule (re (seq_re [lit "eval"; ws_star; lit "("]))
       "eval()" "Dynamic code execution" high;
  rule (re (seq_re [lit "Function"; ws_star; lit "("]))
       "Function()" "Dynamic function creation" high;
  rule (re (seq_re [lit "import"; ws_plus]))
       "import statements" "Module imports" medium;
  rule (re (seq_re [lit "require"; ws_star; lit "("]))
       "require()" "Module requires" medium;
  rule (re (lit "process."))
       "process object" "Process access" high;
  rule (re (lit "global."))
       "global object" "Global object access" medium;
  rule (re (lit "window."))
       "window object" "DOM access" low;
  rule (re (lit "document."))
       "document object" "DOM access" low;
  rule (re (seq_re [lit "fetch"; ws_star; lit "("]))
       "fetch()" "Network requests" high;
  rule (re_i (lit "XMLHttpRequest"))
       "XHR" "Network requests" high;
  rule (re_i (lit "WebSocket"))
       "WebSocket" "WebSocket connections" high;
  rule (re_i (Alt (lit "localStorage") (lit "sessionStorage")))
       "storage" "Browser storage access" medium;
  rule (re_i (Alt (lit "setTimeout") (lit "setInterval")))
       "timers" "Timer functions" medium;
  rule (re_i (seq_re [lit "while"; ws_star; lit "("; ws_star; lit "true";
                      ws_star; lit ")"]))
       "infinite loop" "Potential infinite loop" high;
  rule (re_i (seq_re [lit "for"; ws_star; lit "("; ws_star; lit ";;";
                      ws_star; lit ")"]))
       "infinite loop" "Potential infinite loop" high
].

(** The inner [forEach]: one violation per rule matching the line. *)
Definition check_line (lineNum : nat) (l : jsstring) : list SecurityViolation :=
  flat_map
    (fun r =>
       if test (rule_pattern r) l
       then [ {| line := lineNum;
                 pattern := rule_name r;
                 description := rule_description r;
                 severity := rule_severity r |} ]
       else [])
    dangerousPatterns.

(** The outer [forEach], from array index [index] on. *)
Fixpoint check_lines (index : nat) (lines : list jsstring)
  : list SecurityViolation :=
  match lines with
  | [] => []
  | l :: rest => check_line (index + 1) l ++ check_lines (S index) rest
  end.

Record SecurityReport : Type := {
  allowed : bool;
  violations : list SecurityViolation;
  complexityScore : Q
}.

Definition nat_Q (n : nat) : Q := inject_Z (Z.of_nat n).

Definition rawScore (code : jsstring) (lines : list jsstring)
           (violations : list SecurityViolation) : Q :=
  0 + nat_Q (List.length violations * 10)
    + nat_Q (List.length lines) / 10
    + nat_Q (JsString.match_count (js "function") code * 5)
    + nat_Q (JsString.match_count (js "class") code * 3).

Definition analyzeSecurity (code : jsstring) : SecurityReport :=
  let lines := JsString.split code in
  let violations := check_lines 0 lines in
  let complexityScore := rawScore code lines violations in
  let hasHighSeverity :=
    existsb (fun v => Severity_eqb (severity v) high) violations in
  let hasTooManyViolations := Nat.ltb 5 (List.length violations) in
  {| allowed := negb hasHighSeverity && negb hasTooManyViolations;
     violations := violations;
     complexityScore := Qmin complexityScore 100 |}.

End Analyzer.

(* ================================================================= *)
(** ** The bounded executor *)

Module Executor.

(** The four locals of [executeJavaScript], which are also the fields of
    the object it returns. *)
Record ExecResult : Type := {
  success : bool;
  output : jsstring;
  error : jsstring;
  exitCode : Z
}.

(** A value passed to a console method, seen through the three
    operations the console applies to it. *)
Record JsArg : Type := {
  typeof_object : bool;      (* typeof arg === 'object' *)
  as_String : jsstring;      (* String(arg) *)
  as_JSON : jsstring         (* JSON.stringify(arg, null, 2) *)
}.

(** A string argument. *)
Definition text (s : jsstring) : JsArg :=
  {| typeof_object := false; as_String := s; as_JSON := s |}.

(** A thrown value, seen through what the two catch clauses do with it:
    [instanceof Error], [.message] (empty when the value has none or an
    empty one) and [String(e)].  For [null] and [undefined], and for a
    value whose [message] is an accessor that throws, evaluating
    [e.message || String(e)] raises an exception itself, which
    [describe_raises] holds. *)
#[warnings="-register-all"]
Inductive Thrown : Type := Build_Thrown {
  instanceof_Error : bool;
  message : jsstring;
  thrown_String : jsstring;
  describe_raises : option Thrown
}.

(** [new Error(msg)]; its string conversion is [Error] alone when the
    message is empty. *)
Definition new_Error (msg : jsstring) : Thrown :=
  {| instanceof_Error := true;
     message := msg;
     thrown_String := match msg with
                      | [] => js "Error"
                      | _ => js "Error: " ++ msg
                      end;
     describe_raises := None |}.

(** The methods of [sandboxConsole]. *)
Inductive ConsoleMethod : Type :=
| console_log
| console_error
| console_warn
| console_info.


Definition nl : jsstring := [JsString.newline].

Definition stringify_objects (arg : JsArg) : jsstring :=
  if typeof_object arg then as_JSON arg else as_String arg.

(** The line a console method builds from its arguments. *)
Definition console_line (m : ConsoleMethod) (args : list JsArg) : jsstring :=
  match m with
  | console_log =>
      JsString.join (js " ") (List.map stringify_objects args) ++ nl
  | console_error =>
      JsString.join (js " ") (List.map as_String args) ++ nl
  | console_warn =>
      js "[WARN] " ++ JsString.join (js " ") (List.map as_String args) ++ nl
  | console_info =>
      js "[INFO] " ++ JsString.join (js " ") (List.map as_String args) ++ nl
  end.

(** One call of a [sandboxConsole] method on the locals. *)
Definition sandboxConsole (m : ConsoleMethod) (args : list JsArg)
           (st : ExecResult) : ExecResult :=
  match m with
  | console_error =>
      {| success := success st; output := output st;
         error := error st ++ console_line m args;
         exitCode := exitCode st |}
  | _ =>
      {| success := success st;
         output := output st ++ console_line m args;
         error := error st; exitCode := exitCode st |}
  end.

(** An object awaited from the race, seen through the three property
    reads of [executeJavaScript]: [result.success] is read twice, and an
    accessor may answer the second read differently. *)
Record WrapperResult : Type := {
  r_success : bool;          (* success = result.success *)
  r_success_again : bool;    (* if (!result.success) *)
  r_error : jsstring         (* error = result.error *)
}.

Inductive Settlement : Type :=
| Fulfilled (r : WrapperResult)
| Rejected (e : Thrown).

(** An exception as the outer catch clause meets it: a value it can
    classify with [instanceof Error] and [.message], or a value over
    which the classification itself raises [x] (the code replaced
    [Error], or [message] is an accessor that throws). *)
Inductive Exn : Type :=
| Readable (e : Thrown)
| Unreadable (x : Thrown).

(** How a race ends that the code has taken over. *)
Inductive Awaited : Type :=
| Yields (r : WrapperResult)
| Raises (e : Exn)
| Stalls.

(** What [safeExecute] hands to the race:
    - a plain object;
    - a promise that is settled when the race starts, or settles before
      any timer can fire;
    - a promise that settles later: [timer_first timeout] tells whether
      the timer armed for [timeout * 1000] milliseconds fires before it;
    - a promise that never settles;
    - any value, when the code has replaced or altered what
      [executeJavaScript] uses after the code has run ([Promise.resolve],
      [Promise.race], [setTimeout], [Error]), or rejects with a value
      that the catch clause cannot classify: the race then ends as the
      code makes it, which may depend on the timeout. *)
Inductive Returned : Type :=
| Plain (r : WrapperResult)
| PromiseSettles (s : Settlement)
| PromiseSettlesLater (timer_first : Z -> bool) (s : Settlement)
| PromisePending
| Rigged (after : Z -> Awaited).

(** How the submitted statements end, inside the wrapper's [try].  All
    but the last leave alone what [executeJavaScript] uses afterwards. *)
Inductive CodeEnd : Type :=
| FallsThrough                 (* the end of the statements is reached *)
| ThrowsInTry (e : Thrown)     (* an exception reaches the wrapper's catch *)
| ReturnsOwn (v : Returned)    (* a return statement of the submitted code *)
| Escapes (e : Thrown)         (* an exception that leaves [safeExecute] *)
| LoopsForever                 (* the code, or a callback it scheduled,
                                  never stops running *)
| Interferes (after : Z -> Awaited).

Definition ConsoleCall : Type := (ConsoleMethod * list JsArg)%type.

(** The behaviour of a source text under the engine, which the source
    takes from the JavaScript runtime: either [new Function] rejects the
    text, or the text runs, calling console methods and ending in one of
    the ways above.  [calls] are the console calls made before
    [executeJavaScript] reads its locals.  The [success] of an awaited
    object is taken as a boolean and its [error] as a string; the
    built-ins that the console methods and the handler rely on are taken
    as the engine's, and an exception that leaves [executeJavaScript]
    as one that the handler's catch clause can classify. *)
Inductive Script : Type :=
| FunctionThrows (e : Thrown)
| Runs (calls : list ConsoleCall) (fin : CodeEnd).

(** Computations over the locals that may throw or never return. *)
Inductive Outcome (A : Type) : Type :=
| Normal (a : A) (st : ExecResult)
| Throw (e : Exn) (st : ExecResult)
| Diverge.

Arguments Throw {A} e st.
Arguments Diverge {A}.

Definition M (A : Type) : Type := ExecResult -> Outcome A.

Definition ret {A} (a : A) : M A := fun st => Normal a st.

Definition throw {A} (e : Thrown) : M A := fun st => Throw (Readable e) st.

Definition bind {A B} (m : M A) (k : A -> M B) : M B :=
  fun st =>
    match m st with
    | Normal a st' => k a st'
    | Throw e st' => Throw e st'
    | Diverge => Diverge
    end.

Definition try_catch {A} (body : M A) (handler : Exn -> M A) : M A :=
  fun st =>
    match body st with
    | Throw e st' => handler e st'
    | other => other
    end.

Notation "x <- m ;; k" := (bind m (fun x => k))
  (at level 61, m at next level, right associativity).
Notation "m ;;; k" := (bind m (fun _ => k))
  (at level 61, right associativity).

Definition set_success (b : bool) : M unit :=
  fun st => Normal tt {| success := b; output := output st;
                         error := error st; exitCode := exitCode st |}.

Definition set_error (s : jsstring) : M unit :=
  fun st => Normal tt {| success := success st; output := output st;
                         error := s; exitCode := exitCode st |}.

Definition set_exitCode (n : Z) : M unit :=
  fun st => Normal tt {| success := success st; output := output st;
                         error := error st; exitCode := n |}.

Definition run_calls (calls : list ConsoleCall) (st : ExecResult) : ExecResult :=
  fold_left (fun s c => sandboxConsole (fst c) (snd c) s) calls st.

(** [error.message || String(error)], when it evaluates. *)
Definition message_or_String (e : Thrown) : jsstring :=
  match message e with
  | [] => thrown_String e
  | m => m
  end.

(** [safeExecute(sandboxConsole)]: the wrapper around the submitted code.
    An exception raised by the wrapper's own catch clause leaves it. *)
Definition safeExecute (calls : list ConsoleCall) (fin : CodeEnd) : M Returned :=
  fun st =>
    let st' := run_calls calls st in
    match fin with
    | FallsThrough =>
        Normal (Plain {| r_success := true; r_success_again := true;
                         r_error := [] |}) st'
    | ThrowsInTry e =>
        match describe_raises e with
        | Some x => Throw (Readable x) st'
        | None =>
            Normal (Plain {| r_success := false; r_success_again := false;
                             r_error := message_or_String e |}) st'
        end
    | ReturnsOwn v => Normal v st'
    | Escapes e => Throw (Readable e) st'
    | LoopsForever => Diverge
    | Interferes after => Normal (Rigged after) st'
    end.

Definition timeout_message (timeout : Z) : jsstring :=
  js "Execution timeout after " ++ JsString.of_Z timeout ++ js "ms".

Definition settle (s : Settlement) : M WrapperResult :=
  match s with
  | Fulfilled r => ret r
  | Rejected e => throw e
  end.

(** [await Promise.race([Promise.resolve(v), timer])].  A value that is
    not a promise is already resolved when the race starts and wins it,
    as does a promise that settles before any timer can fire. *)
Definition race (v : Returned) (timeout : Z) : M WrapperResult :=
  match v with
  | Plain r => ret r
  | PromiseSettles s => settle s
  | PromiseSettlesLater timer_first s =>
      if timer_first timeout
      then throw (new_Error (timeout_message timeout))
      else settle s
  | PromisePending => throw (new_Error (timeout_message timeout))
  | Rigged after =>
      match after timeout with
      | Yields r => ret r
      | Raises e => fun st => Throw e st
      | Stalls => fun _ => Diverge
      end
  end.

(** [err instanceof Error ? err.message : 'Execution failed']. *)
Definition classify (err : Exn) : M jsstring :=
  match err with
  | Readable e => ret (if instanceof_Error e then message e
                       else js "Execution failed")
  | Unreadable x => throw x
  end.

Definition raised (err : Exn) : Thrown :=
  match err with Readable e => e | Unreadable x => x end.

Definition initial : ExecResult :=
  {| success := false; output := []; error := []; exitCode := 0 |}.

(** How a call of [executeJavaScript] ends. *)
Inductive Completion : Type :=
| Resolves (r : ExecResult)
| Uncaught (e : Thrown)
| NeverSettles.

Definition executeJavaScript (script : Script) (timeout : Z) : Completion :=
  let body : M unit :=
    v <- match script with
         | FunctionThrows e => throw e
         | Runs calls fin => safeExecute calls fin
         end ;;
    result <- race v timeout ;;
    set_success (r_success result) ;;;
    if negb (r_success_again result)
    then set_error (r_error result) ;;; set_exitCode 1
    else ret tt in
  let handler (err : Exn) : M unit :=
    set_success false ;;;
    text <- classify err ;;
    set_error text ;;;
    set_exitCode 1 in
  match try_catch body handler initial with
  | Normal _ st => Resolves st
  | Throw e _ => Uncaught (raised e)
  | Diverge => NeverSettles
  end.

End Executor.

(* ================================================================= *)
(** ** The request handler *)

Module Handler.
Import Analyzer.

(** The fields [handleExecute] reads from the JSON body. *)
Record Payload : Type := {
  code : option jsstring;
  language : option jsstring;
  timeout : option Z
}.

(** A request: its method and what [request.json()] yields, a payload
    or the error it rejects with. *)
Record Request : Type := {
  method : jsstring;
  json : Payload + Executor.Thrown
}.

Record security_report_t : Type := {
  sr_allowed : bool;
  sr_violations : list SecurityViolation;
  complexity_score : Q
}.

Record ExecutionResult : Type := {
  success : bool;
  output : jsstring;
  error : jsstring;
  exit_code : Z;
  execution_time : Q;
  security_report : security_report_t
}.

(** The JSON bodies [handleExecute] answers with. *)
Inductive Body : Type :=
| ErrorMessage (error message : jsstring)
| Invalid (success : bool) (error output : jsstring) (exit_code : Z)
| Result (r : ExecutionResult).

Record Response : Type := {
  status : Z;
  body : Body
}.

Definition report_json (r : SecurityReport) : security_report_t :=
  {| sr_allowed := allowed r;
     sr_violations := violations r;
     complexity_score := complexityScore r |}.

Definition is_empty (s : jsstring) : bool :=
  match s with [] => true | _ => false end.

(** [a === b] on strings. *)
Fixpoint jsstring_eqb (a b : jsstring) : bool :=
  match a, b with
  | [], [] => true
  | x :: a', y :: b' => N.eqb x y && jsstring_eqb a' b'
  | _, _ => false
  end.

(** [(Date.now() - startTime) / 1000]. *)
Definition elapsed (startTime now : Z) : Q := inject_Z (now - startTime) / 1000.

(** [timeout || d]. *)
Definition timeout_or (t : option Z) (d : Z) : Z :=
  match t with
  | Some t => if Z.eqb t 0 then d else t
  | None => d
  end.

(** [language && language !== 'javascript']. *)
Definition unsupported (language : option jsstring) : bool :=
  match language with
  | Some ((_ :: _) as lang) => negb (jsstring_eqb lang (js "javascript"))
  | _ => false
  end.

Definition lang_text (language : option jsstring) : jsstring :=
  match language with Some lang => lang | None => [] end.

(** The response of the [catch] block. *)
Definition failure (startTime now : Z) (err : Executor.Thrown) : Response :=
  {| status := 500;
     body := Result
       {| success := false; output := [];
          error := if Executor.instanceof_Error err
                   then Executor.message err
                   else js "Execution failed";
          exit_code := 1;
          execution_time := elapsed startTime now;
          security_report :=
            {| sr_allowed := false; sr_violations := [];
               complexity_score := 0 |} |} |}.

(** [handleExecute].  [engine] gives the behaviour of a source text;
    [defaultTimeout] is [parseInt(env.MAX_EXECUTION_TIME || '10')];
    [startTime] and [now] are the two readings of [Date.now()].  [None]
    stands for a handler that never answers.  The optional insertion
    into the execution log does not change the response and is left
    out. *)
Definition handleExecute (engine : jsstring -> Executor.Script)
           (defaultTimeout startTime now : Z) (request : Request)
  : option Response :=
  if negb (jsstring_eqb (method request) (js "POST")) then
    Some {| status := 405;
            body := ErrorMessage (js "Method Not Allowed")
                                 (js "POST method required for /execute") |}
  else
    match json request with
    | inr err => Some (failure startTime now err)
    | inl payload =>
        match code payload with
        | None =>
            Some {| status := 400;
                    body := Invalid false (js "Code is required") [] 1 |}
        | Some code =>
            if is_empty code then
              Some {| status := 400;
                      body := Invalid false (js "Code is required") [] 1 |}
            else if unsupported (language payload) then
              Some {| status := 400;
                      body := Invalid false
                        (js "Language '" ++ lang_text (language payload) ++
                         js "' not supported in Cloudflare Workers. Only JavaScript is supported.")
                        [] 1 |}
            else
              let securityReport := analyzeSecurity code in
              if negb (allowed securityReport) then
                Some {| status := 400;
                        body := Result
                          {| success := false; output := [];
                             error := js "Code blocked by security policy";
                             exit_code := 1;
                             execution_time := elapsed startTime now;
                             security_report := report_json securityReport |} |}
              else
                match Executor.executeJavaScript (engine code)
                        (timeout_or (timeout payload) defaultTimeout) with
                | Executor.Resolves result =>
                    Some {| status := 200;
                            body := Result
                              {| success := Executor.success result;
                                 output := Executor.output result;
                                 error := Executor.error result;
                                 exit_code := Executor.exitCode result;
                                 execution_time := elapsed startTime now;
                                 security_report :=
                                   {| sr_allowed := true;
                                      sr_violations := violations securityReport;
                                      complexity_score :=
                                        complexityScore securityReport |} |} |}
                | Executor.Uncaught err => Some (failure startTime now err)
                | Executor.NeverSettles => None
                end
        end
    end.

End Handler.

(* ================================================================= *)
(** ** Vocabulary of the statements *)

Module Spec.
Import RegExp Analyzer.

(** [m] spells the literal [w], letter by letter, up to the case folding
    selected by [ic]. *)
Definition spells (ic : bool) (w m : jsstring) : Prop :=
  Forall2 (fun p c => canonicalize ic p = canonicalize ic c) w m.

(** [code] contains a match of the literal [w]. *)
Definition contains (ic : bool) (w code : jsstring) : Prop :=
  exists pre m post, code = pre ++ m ++ post /\ spells ic w m.

(** Number of newlines in a text: the index of the line that follows. *)
Definition newlines (s : jsstring) : nat :=
  List.length (List.filter (N.eqb JsString.newline) s).

Definition single_line (s : jsstring) : bool :=
  negb (existsb (N.eqb JsString.newline) s).

(** Some high-severity rule of the catalogue matches the line. *)
Definition matches_high (l : jsstring) : bool :=
  existsb (fun r => Severity_eqb (rule_severity r) high
                    && test (rule_pattern r) l)
          dangerousPatterns.

Definition count_severity (s : Severity) (vs : list SecurityViolation) : nat :=
  List.length (List.filter (fun v => Severity_eqb (severity v) s) vs).

(** The six literals of the high-severity property, each with the case
    folding of its catalogue entry and the label of that entry. *)
Definition high_literals : list (bool * string * string) := [
  (false, "eval(", "eval()");
  (false, "Function(", "Function()");
  (false, "fetch(", "fetch()");
  (false, "process.", "process object");
  (true, "while(true)", "infinite loop");
  (true, "for(;;)", "infinite loop")
]%string.

(** Clamping to an interval, and the score as the specification words
    it: ten per violation, a tenth per line, five and three per
    occurrence of [function] and [class], clamped to [0,100]. *)
Definition clamp (lo hi x : Q) : Q := Qmax lo (Qmin x hi).

Definition spec_score (code : jsstring) : Q :=
  let r := analyzeSecurity code in
  clamp 0 100
    (10 * nat_Q (List.length (violations r))
     + nat_Q (List.length (JsString.split code)) / 10
     + 5 * nat_Q (JsString.match_count (js "function") code)
     + 3 * nat_Q (JsString.match_count (js "class") code)).

Definition is_integer (q : Q) : Prop := exists z : Z, q == inject_Z z.

(** The violation a rule contributes on line [n]. *)
Definition violation_of (n : nat) (r : PatternRule) : SecurityViolation :=
  {| line := n; pattern := rule_name r;
     description := rule_description r; severity := rule_severity r |}.

(** What a sequence of console calls writes to each of the two buffers. *)
Definition is_console_error (m : Executor.ConsoleMethod) : bool :=
  match m with Executor.console_error => true | _ => false end.

Definition output_text (calls : list Executor.ConsoleCall) : jsstring :=
  flat_map (fun c => if is_console_error (fst c) then []
                     else Executor.console_line (fst c) (snd c)) calls.

Definition error_text (calls : list Executor.ConsoleCall) : jsstring :=
  flat_map (fun c => if is_console_error (fst c)
                     then Executor.console_line (fst c) (snd c)
                     else []) calls.

(** The code hands to the race nothing that is still unsettled when the
    race starts: no promise that settles later or never, and the race is
    the engine's own. *)
Definition settled_on_return (s : Executor.Script) : bool :=
  match s with
  | Executor.Runs _ (Executor.ReturnsOwn (Executor.PromiseSettlesLater _ _))
  | Executor.Runs _ (Executor.ReturnsOwn Executor.PromisePending)
  | Executor.Runs _ (Executor.ReturnsOwn (Executor.Rigged _))
  | Executor.Runs _ (Executor.Interferes _) => false
  | _ => true
  end.


(** The text the outer catch clause stores for a value it can classify. *)
Definition catch_text (e : Executor.Thrown) : jsstring :=
  if Executor.instanceof_Error e then Executor.message e
  else js "Execution failed".

(** The result of a call that fails with the error text [text]. *)
Definition failed (calls : list Executor.ConsoleCall) (text : jsstring)
  : Executor.ExecResult :=
  {| Executor.success := false; Executor.output := output_text calls;
     Executor.error := text; Executor.exitCode := 1 |}.

(** The result of a call whose race gives the object [r]. *)
Definition yielded (calls : list Executor.ConsoleCall)
           (r : Executor.WrapperResult) : Executor.ExecResult :=
  {| Executor.success := Executor.r_success r;
     Executor.output := output_text calls;
     Executor.error := if Executor.r_success_again r then error_text calls
                       else Executor.r_error r;
     Executor.exitCode := if Executor.r_success_again r then 0 else 1 |}.

Definition settled (calls : list Executor.ConsoleCall)
           (s : Executor.Settlement) : Executor.Completion :=
  match s with
  | Executor.Fulfilled r => Executor.Resolves (yielded calls r)
  | Executor.Rejected e => Executor.Resolves (failed calls (catch_text e))
  end.

(** How the call ends for each value handed to the race. *)
Definition raced (calls : list Executor.ConsoleCall) (v : Executor.Returned)
           (timeout : Z) : Executor.Completion :=
  match v with
  | Executor.Plain r => Executor.Resolves (yielded calls r)
  | Executor.PromiseSettles s => settled calls s
  | Executor.PromiseSettlesLater timer_first s =>
      if timer_first timeout
      then Executor.Resolves
             (failed calls (Executor.timeout_message timeout))
      else settled calls s
  | Executor.PromisePending =>
      Executor.Resolves (failed calls (Executor.timeout_message timeout))
  | Executor.Rigged after =>
      match after timeout with
      | Executor.Yields r => Executor.Resolves (yielded calls r)
      | Executor.Raises (Executor.Readable e) =>
          Executor.Resolves (failed calls (catch_text e))
      | Executor.Raises (Executor.Unreadable x) => Executor.Uncaught x
      | Executor.Stalls => Executor.NeverSettles
      end
  end.

(** Both reads of [success] of any object the code hands to the race
    agree, as they do for a data property. *)
Definition steady (s : Executor.Script) : bool :=
  match s with
  | Executor.Runs _ (Executor.ReturnsOwn (Executor.Plain r))
  | Executor.Runs _ (Executor.ReturnsOwn
                       (Executor.PromiseSettles (Executor.Fulfilled r)))
  | Executor.Runs _ (Executor.ReturnsOwn
                       (Executor.PromiseSettlesLater _ (Executor.Fulfilled r)))
      => Bool.eqb (Executor.r_success r) (Executor.r_success_again r)
  | Executor.Runs _ (Executor.ReturnsOwn (Executor.Rigged _))
  | Executor.Runs _ (Executor.Interferes _) => false
  | _ => true
  end.

(** The text the result carries for a value thrown inside the wrapper. *)
Definition wrapper_text (e : Executor.Thrown) : jsstring :=
  match Executor.describe_raises e with
  | Some x => catch_text x
  | None => Executor.message_or_String e
  end.

End Spec.

(* ================================================================= *)
(** ** Sample inputs *)

Module Inputs.

Definition lines_of (ls : list string) : jsstring :=
  JsString.join [JsString.newline] (List.map js ls).

(** Six lines, each matched by one medium-severity rule and by no other. *)
Definition six_medium : jsstring :=
  lines_of ["import a"; "import b"; "require(c)"; "global.d";
            "localStorage"; "setTimeout"]%string.

(** An upper-case spelling of the first high-severity literal. *)
Definition shouted_eval : jsstring := js "EVAL(".

Definition blocked_source : jsstring := js "fetch('/api')".

Definition loop_line : jsstring := js "While (True) {}".


(** [console.log('hi'); throw new Error('x')]. *)
Definition throwing_script : Executor.Script :=
  Executor.Runs [(Executor.console_log, [Executor.text (js "hi")])]
                (Executor.ThrowsInTry (Executor.new_Error (js "x"))).







(** [return new Promise(r => setTimeout(() => r({ success: true, error:
    '' }), 2000))]: the timer fires first when armed for less than two
    seconds. *)
Definition slow_promise_script : Executor.Script :=
  Executor.Runs []
    (Executor.ReturnsOwn
       (Executor.PromiseSettlesLater
          (fun timeout => Z.ltb timeout 2)
          (Executor.Fulfilled {| Executor.r_success := true;
                                 Executor.r_success_again := true;
                                 Executor.r_error := [] |}))).

(** [setTimeout = () => 0; return new Promise(() => {})]: the timer is
    never armed. *)
Definition disarmed_timer_script : Executor.Script :=
  Executor.Runs [] (Executor.Interferes (fun _ => Executor.Stalls)).

(** [let n = 0; return { get success() { return n++ === 0 }, error: 'e' }]. *)
Definition accessor_script : Executor.Script :=
  Executor.Runs []
    (Executor.ReturnsOwn
       (Executor.Plain {| Executor.r_success := true;
                          Executor.r_success_again := false;
                          Executor.r_error := js "e" |})).

(** [return new Promise(() => {})]: a promise that never settles. *)
Definition pending_script : Executor.Script :=
  Executor.Runs [] (Executor.ReturnsOwn Executor.PromisePending).

(** A POST of [{ code: 'eval(1)', language: 'javascript' }]. *)
Definition blocked_request : Handler.Request :=
  {| Handler.method := js "POST";
     Handler.json := inl {| Handler.code := Some (js "eval(1)");
                            Handler.language := Some (js "javascript");
                            Handler.timeout := None |} |}.

Definition idle_engine (source : jsstring) : Executor.Script :=
  Executor.Runs [] Executor.FallsThrough.

End Inputs.

(* ================================================================= *)
(** ** The worker: routing and the informational endpoints *)

Module Worker.

(** The environment.  The two numeric variables stand for
    [parseInt(env.MAX_EXECUTION_TIME || '10')] and
    [parseInt(env.MAX_MEMORY_MB || '128')]. *)
Record Env : Type := {
  ENVIRONMENT : jsstring;
  MAX_EXECUTION_TIME : Z;
  MAX_MEMORY_MB : Z
}.

Record LanguageInfo : Type := {
  name : jsstring;
  command : jsstring;
  file_extension : jsstring;
  timeout_multiplier : Q;
  available : bool;
  note : option jsstring
}.

(** The list [handleLanguages] answers with. *)
Definition handleLanguages : list LanguageInfo := [
  {| name := js "javascript"; command := js "Function()";
     file_extension := js ".js"; timeout_multiplier := 1;
     available := true; note := None |};
  {| name := js "python"; command := js "python3";
     file_extension := js ".py"; timeout_multiplier := 1;
     available := false;
     note := Some (js "Not available in Cloudflare Workers environment") |};
  {| name := js "node"; command := js "node";
     file_extension := js ".js"; timeout_multiplier := 1;
     available := false; note := Some (js "Use JavaScript instead") |}
].

Record SecurityPolicy : Type := {
  max_execution_time : Z;
  max_memory_mb : Z;
  max_output_size : Z;
  dangerous_patterns_count : Z;
  environment : jsstring;
  limitations : list jsstring;
  security_features : list jsstring
}.

Definition handleSecurityPolicy (env : Env) : SecurityPolicy :=
  {| max_execution_time := MAX_EXECUTION_TIME env;
     max_memory_mb := MAX_MEMORY_MB env;
     max_output_size := 8192;
     dangerous_patterns_count := 15;
     environment := js "Cloudflare Workers";
     limitations := List.map js
       ["JavaScript only execution"; "No subprocess spawning";
        "Limited system access"; "No persistent storage";
        "Sandboxed runtime"]%string;
     security_features := List.map js
       ["Pattern-based detection"; "Complexity scoring";
        "Timeout enforcement"; "Sandboxed execution";
        "CORS protection"]%string |}.

(** The routes the 404 answer advertises. *)
Definition available_routes : list jsstring :=
  List.map js ["/"; "/execute"; "/languages"; "/security/policy";
               "/health"; "/ui"]%string.

(** What [fetch] answers with, by route.  Time stamps and headers are
    left out. *)
Inductive Answer : Type :=
| Preflight
| ServiceInfo (status service version environment : jsstring)
| Execute (r : Handler.Response)
| Languages (languages : list LanguageInfo)
| Policy (p : SecurityPolicy)
| Health (status workers_version : jsstring)
| Ui
| NotFound (error message : jsstring) (available_routes : list jsstring).

Definition status_of (a : Answer) : Z :=
  match a with
  | Execute r => Handler.status r
  | NotFound _ _ _ => 404
  | _ => 200
  end.

(** [env.ENVIRONMENT || 'development']. *)
Definition environment_or_default (env : Env) : jsstring :=
  match ENVIRONMENT env with
  | [] => js "development"
  | e => e
  end.

(** [fetch]: the preflight check, then the [switch] on the path of the
    URL.  [None] stands for a worker that never answers. *)
Definition fetch (engine : jsstring -> Executor.Script) (env : Env)
           (startTime now : Z) (path : jsstring) (request : Handler.Request)
  : option Answer :=
  if Handler.jsstring_eqb (Handler.method request) (js "OPTIONS") then
    Some Preflight
  else if Handler.jsstring_eqb path (js "/") then
    Some (ServiceInfo (js "healthy") (js "Hybrid Code Interceptor Sandbox")
                      (js "1.0.0-cf") (environment_or_default env))
  else if Handler.jsstring_eqb path (js "/execute") then
    option_map Execute
      (Handler.handleExecute engine (MAX_EXECUTION_TIME env)
                             startTime now request)
  else if Handler.jsstring_eqb path (js "/languages") then
    Some (Languages handleLanguages)
  else if Handler.jsstring_eqb path (js "/security/policy") then
    Some (Policy (handleSecurityPolicy env))
  else if Handler.jsstring_eqb path (js "/health") then
    Some (Health (js "ok") (js "1.0.0-cf"))
  else if Handler.jsstring_eqb path (js "/ui") then
    Some Ui
  else
    Some (NotFound (js "Not Found")
                   (js "Route " ++ path ++ js " not found")
                   available_routes).

End Worker.

(* ================================================================= *)
(** ** Hashing for the execution log *)

Module Hash.

(** The digit of a value below sixteen, in lower case. *)
Definition hex_digit (d : N) : N :=
  if N.ltb d 10 then (48 + d)%N else (87 + d)%N.

(** [b.toString(16)] for an element of a [Uint8Array]. *)
Definition toString16 (b : Byte.byte) : jsstring :=
  let n := Byte.to_N b in
  if N.ltb n 16 then [hex_digit n]
  else [hex_digit (n / 16); hex_digit (n mod 16)].

(** [s.padStart(2, '0')]. *)
Definition padStart2 (s : jsstring) : jsstring :=
  List.repeat 48%N (2 - List.length s) ++ s.

(** [hashArray.map(b => b.toString(16).padStart(2, '0')).join('')]. *)
Definition hex (hashArray : list Byte.byte) : jsstring :=
  JsString.join [] (List.map (fun b => padStart2 (toString16 b)) hashArray).

(** [hashCode], over the digest of the subtle-crypto interface:
    [digest str] stands for the bytes of
    [crypto.subtle.digest('SHA-256', new TextEncoder().encode(str))]. *)
Definition hashCode (digest : jsstring -> list Byte.byte) (str : jsstring)
  : jsstring :=
  hex (digest str).

End Hash.

(* ================================================================= *)
(** ** Vocabulary of the further statements *)

Module Extra.
Import RegExp Analyzer.

(** A violation moved down by [k] lines. *)
Definition shift_line (k : nat) (v : SecurityViolation) : SecurityViolation :=
  {| line := line v + k; pattern := pattern v;
     description := description v; severity := severity v |}.

(** The violation carries the label of a rule with the [i] flag. *)
Definition from_ignore_case_rule (v : SecurityViolation) : Prop :=
  exists r, In r dangerousPatterns
            /\ ignoreCase (rule_pattern r) = true
            /\ pattern v = rule_name r.

(** The rules of the form [name\s*\(], with their labels and severities. *)
Definition call_rules : list (string * string * Severity) := [
  ("eval", "eval()", high); ("Function", "Function()", high);
  ("require", "require()", medium); ("fetch", "fetch()", high)
]%string.

(** Rules with the same label have the same [i] flag. *)
Definition labels_fix_flag : bool :=
  forallb (fun r =>
    forallb (fun r0 =>
      implb (String.eqb (rule_name r) (rule_name r0))
            (Bool.eqb (ignoreCase (rule_pattern r))
                      (ignoreCase (rule_pattern r0))))
      dangerousPatterns) dangerousPatterns.

(** The request passes the method, body, code and language checks of
    [handleExecute] and the analysis allows its code. *)
Definition reaches_executor (request : Handler.Request) : bool :=
  Handler.jsstring_eqb (Handler.method request) (js "POST")
  && match Handler.json request with
     | inl payload =>
         match Handler.code payload with
         | Some source =>
             negb (Handler.is_empty source)
             && negb (Handler.unsupported (Handler.language payload))
             && allowed (analyzeSecurity source)
         | None => false
         end
     | inr _ => false
     end.

(** The code of a request, when its body has one. *)
Definition code_of (request : Handler.Request) : jsstring :=
  match Handler.json request with
  | inl payload =>
      match Handler.code payload with Some source => source | None => [] end
  | inr _ => []
  end.

(** The timeout of a request, when its body has one. *)
Definition timeout_of (request : Handler.Request) : option Z :=
  match Handler.json request with
  | inl payload => Handler.timeout payload
  | inr _ => None
  end.

Definition with_timeout (t : option Z) (request : Handler.Request)
  : Handler.Request :=
  {| Handler.method := Handler.method request;
     Handler.json :=
       match Handler.json request with
       | inl payload =>
           inl {| Handler.code := Handler.code payload;
                  Handler.language := Handler.language payload;
                  Handler.timeout := t |}
       | inr e => inr e
       end |}.

Definition loops_forever (s : Executor.Script) : bool :=
  match s with
  | Executor.Runs _ Executor.LoopsForever => true
  | _ => false
  end.

Definition is_hex_digit (c : N) : bool :=
  (N.leb 48 c && N.leb c 57) || (N.leb 97 c && N.leb c 102).

(** Sample inputs of the further statements. *)
Definition ten_violations : jsstring :=
  js "eval( Function( import x require( process. global. window. document. fetch( XMLHttpRequest".

(** A space, a tab and a no-break space. *)
Definition blanks : jsstring := [32; 9; 160]%N.

Definition mixed_case_source : jsstring :=
  JsString.join [JsString.newline]
                (List.map js ["let a = 1;"; "new WebSocket(u)"]%string).

Definition upper_case_source : jsstring :=
  JsString.join [JsString.newline]
                (List.map js ["LET A = 1;"; "NEW WEBSOCKET(U)"]%string).

Definition post (source : string) (t : option Z) : Handler.Request :=
  {| Handler.method := js "POST";
     Handler.json := inl {| Handler.code := Some (js source);
                            Handler.language := None;
                            Handler.timeout := t |} |}.

(** A digest that repeats the first code unit of the text, as a byte, 32
    times; it stands in for SHA-256 where a statement is run. *)
Definition first_unit_digest (s : jsstring) : list Byte.byte :=
  List.repeat
    (match s with
     | c :: _ => match Byte.of_N (c mod 256) with
                 | Some b => b
                 | None => Byte.x00
                 end
     | [] => Byte.x00
     end) 32.

Definition logging_engine (source : jsstring) : Executor.Script :=
  Executor.Runs [(Executor.console_log, [Executor.text source])]
                Executor.FallsThrough.

Definition looping_engine (source : jsstring) : Executor.Script :=
  Executor.Runs [] Executor.LoopsForever.

End Extra.

(* ================================================================= *)
(** ** Facts about JavaScript strings *)

Section JsStringFacts.
Import JsString Spec.

Lemma split_nonempty (s : jsstring) : split s <> [].
Proof.
  destruct s as [|c s]; simpl; [discriminate|].
  destruct (N.eqb c newline); [discriminate|].
  destruct (split s); discriminate.
Qed.

Lemma split_cons_other (c : N) (s : jsstring) :
  N.eqb c newline = false ->
  split (c :: s) = (c :: hd [] (split s)) :: tl (split s).
Proof.
  intros Hc. simpl. rewrite Hc.
  destruct (split s) eqn:E; [now apply split_nonempty in E|reflexivity].
Qed.

(** Splitting commutes with appending a newline-separated text. *)
Lemma split_app_newline (s t : jsstring) :
  split (s ++ newline :: t) = split s ++ split t.
Proof.
  induction s as [|c s IH]; simpl.
  - reflexivity.
  - destruct (N.eqb c newline).
    + now rewrite IH.
    + rewrite IH. destruct (split s) eqn:E; [now apply split_nonempty in E|].
      reflexivity.
Qed.

Lemma single_line_notin (s : jsstring) :
  single_line s = true <-> ~ In newline s.
Proof.
  unfold single_line. rewrite negb_true_iff. split.
  - intros H Hin. enough (existsb (N.eqb newline) s = true) by congruence.
    apply existsb_exists. exists newline. split; [assumption|apply N.eqb_refl].
  - intros H. destruct (existsb (N.eqb newline) s) eqn:E; [|reflexivity].
    apply existsb_exists in E. destruct E as [x [Hx Hn]].
    apply N.eqb_eq in Hn. subst x. contradiction.
Qed.

Lemma split_single_line (s : jsstring) :
  ~ In newline s -> split s = [s].
Proof.
  induction s as [|c s IH]; intros H; [reflexivity|].
  assert (Hc : N.eqb c newline = false).
  { apply N.eqb_neq. intros ->. apply H. now left. }
  rewrite split_cons_other by assumption.
  rewrite IH; [reflexivity|]. intros Hin. apply H. now right.
Qed.

(** A text without newline stays in the first line of what follows it. *)
Lemma split_app_single_line (m post : jsstring) :
  ~ In newline m ->
  split (m ++ post) = (m ++ hd [] (split post)) :: tl (split post).
Proof.
  induction m as [|c m IH]; intros Hm.
  - simpl. destruct (split post) as [|x xs] eqn:E;
      [now apply split_nonempty in E|reflexivity].
  - assert (Hc : N.eqb c newline = false).
    { apply N.eqb_neq. intros ->. apply Hm. now left. }
    change ((c :: m) ++ post) with (c :: (m ++ post)).
    rewrite split_cons_other by assumption.
    rewrite IH; [reflexivity|]. intros Hin. apply Hm. now right.
Qed.

Lemma newlines_cons (c : N) (s : jsstring) :
  newlines (c :: s) = if N.eqb c newline then S (newlines s) else newlines s.
Proof.
  unfold newlines. cbn [filter]. rewrite (N.eqb_sym newline c).
  destruct (N.eqb c newline); reflexivity.
Qed.

Lemma split_cons_newline (s : jsstring) :
  split (newline :: s) = [] :: split s.
Proof. reflexivity. Qed.

(** A text without newline lies inside one line: the line whose index is
    the number of newlines before it. *)
Lemma split_locate (pre m post : jsstring) :
  ~ In newline m ->
  exists l r,
    nth_error (split (pre ++ m ++ post)) (newlines pre) = Some (l ++ m ++ r).
Proof.
  intros Hm. induction pre as [|c pre IH].
  - exists [], (hd [] (split post)). simpl.
    now rewrite split_app_single_line.
  - destruct IH as [l [r H]].
    change ((c :: pre) ++ m ++ post) with (c :: (pre ++ m ++ post)).
    rewrite newlines_cons.
    destruct (N.eqb c newline) eqn:Hc.
    + apply N.eqb_eq in Hc. subst c. rewrite split_cons_newline.
      exists l, r. exact H.
    + rewrite split_cons_other by assumption.
      destruct (split (pre ++ m ++ post)) as [|l0 ls] eqn:E;
        [now apply split_nonempty in E|].
      destruct (newlines pre) as [|k].
      * simpl in *. injection H as ->. exists (c :: l), r. reflexivity.
      * simpl in *. exists l, r. assumption.
Qed.

End JsStringFacts.

(* ================================================================= *)
(** ** Facts about the matcher *)

Section RegExpFacts.
Import RegExp Spec.

Variable ic : bool.

Lemma Matches_nil_nullable (r : regex) (s : jsstring) :
  Matches ic r s -> s = [] -> nullable r = true.
Proof.
  induction 1; intros Hs; simpl; try discriminate; try reflexivity.
  - apply app_eq_nil in Hs. destruct Hs as [-> ->].
    now rewrite IHMatches1, IHMatches2.
  - now rewrite IHMatches.
  - rewrite IHMatches by assumption. apply orb_true_r.
Qed.

Lemma nullable_Matches_nil (r : regex) :
  nullable r = true -> Matches ic r [].
Proof.
  induction r; simpl; intros H; try discriminate.
  - constructor.
  - apply andb_prop in H. destruct H as [H1 H2].
    change (@nil N) with (@nil N ++ @nil N). constructor; auto.
  - apply orb_prop in H. destruct H as [H|H];
      [apply MAltL|apply MAltR]; auto.
  - constructor.
Qed.

(** Reading one code unit is taking the derivative. *)
Lemma Matches_deriv (r : regex) (w : jsstring) :
  Matches ic r w ->
  forall c s, w = c :: s -> Matches ic (deriv ic c r) s.
Proof.
  induction 1; intros c0 s0 Hw; simpl; try discriminate.
  - injection Hw as -> <-. rewrite H. constructor.
  - injection Hw as -> <-. rewrite H. constructor.
  - destruct s1 as [|a s1].
    + simpl in Hw. subst s2.
      rewrite (Matches_nil_nullable H eq_refl).
      apply MAltR. now apply IHMatches2.
    + simpl in Hw. injection Hw as -> <-.
      assert (Hd : Matches ic (Cat (deriv ic c0 r1) r2) (s1 ++ s2)).
      { constructor; [now apply IHMatches1|assumption]. }
      destruct (nullable r1); [now apply MAltL|assumption].
  - apply MAltL. now apply IHMatches.
  - apply MAltR. now apply IHMatches.
  - destruct s1 as [|a s1].
    + simpl in Hw. subst s2. now apply IHMatches2.
    + simpl in Hw. injection Hw as -> <-.
      constructor; [now apply IHMatches1|assumption].
Qed.

Lemma deriv_Matches (r : regex) :
  forall c s, Matches ic (deriv ic c r) s -> Matches ic r (c :: s).
Proof.
  induction r; intros c0 s H; simpl in H.
  - inversion H.
  - inversion H.
  - destruct (chr_match ic c c0) eqn:E; inversion H; subst.
    now constructor.
  - destruct (is_space c0) eqn:E; inversion H; subst. now constructor.
  - destruct (nullable r1) eqn:En.
    + inversion H; subst.
      * match goal with
        | Hc : Matches ic (Cat _ _) _ |- _ => inversion Hc; subst
        end.
        change (c0 :: s1 ++ s2) with ((c0 :: s1) ++ s2).
        constructor; auto.
      * change (c0 :: s) with ([] ++ c0 :: s).
        constructor; [now apply nullable_Matches_nil|auto].
    + inversion H; subst.
      change (c0 :: s1 ++ s2) with ((c0 :: s1) ++ s2).
      constructor; auto.
  - inversion H; subst; [apply MAltL|apply MAltR]; auto.
  - inversion H; subst.
    change (c0 :: s1 ++ s2) with ((c0 :: s1) ++ s2).
    constructor; auto.
Qed.

Lemma match_here_complete (m : jsstring) :
  forall r post, Matches ic r m -> match_here ic r (m ++ post) = true.
Proof.
  induction m as [|c m IH]; intros r post H.
  - pose proof (Matches_nil_nullable H eq_refl) as Hn.
    destruct post; simpl; rewrite Hn; reflexivity.
  - simpl. rewrite (IH (deriv ic c r) post).
    + apply orb_true_r.
    + eapply Matches_deriv; eauto.
Qed.

Lemma match_here_sound (s : jsstring) :
  forall r, match_here ic r s = true ->
            exists m post, s = m ++ post /\ Matches ic r m.
Proof.
  induction s as [|c s IH]; intros r H; simpl in H.
  - rewrite orb_false_r in H. exists [], [].
    split; [reflexivity|now apply nullable_Matches_nil].
  - apply orb_prop in H. destruct H as [H|H].
    + exists [], (c :: s). split; [reflexivity|now apply nullable_Matches_nil].
    + apply IH in H. destruct H as [m [post [-> Hm]]].
      exists (c :: m), post. split; [reflexivity|now apply deriv_Matches].
Qed.

Lemma match_here_search (r : regex) (s : jsstring) :
  match_here ic r s = true -> search ic r s = true.
Proof. intros H. destruct s; cbn [search]; rewrite H; reflexivity. Qed.

Lemma search_complete (pre m post : jsstring) (r : regex) :
  Matches ic r m -> search ic r (pre ++ m ++ post) = true.
Proof.
  intros H. induction pre as [|c pre IH].
  - apply match_here_search. cbn [app]. exact (match_here_complete post H).
  - cbn [app search]. rewrite IH. apply orb_true_r.
Qed.

Lemma search_sound (s : jsstring) (r : regex) :
  search ic r s = true ->
  exists pre m post, s = pre ++ m ++ post /\ Matches ic r m.
Proof.
  induction s as [|c s IH]; intros H.
  - cbn [search] in H. rewrite orb_false_r in H.
    apply match_here_sound in H. destruct H as [m [post [E Hm]]].
    exists [], m, post. auto.
  - cbn [search] in H. apply orb_prop in H. destruct H as [H|H].
    + apply match_here_sound in H. destruct H as [m [post [E Hm]]].
      exists [], m, post. auto.
    + apply IH in H. destruct H as [pre [m [post [-> Hm]]]].
      exists (c :: pre), m, post. auto.
Qed.

(** The spelling of a text does not matter to the matcher beyond the
    case folding. *)
Lemma canonicalize_space (a b : N) :
  canonicalize ic a = canonicalize ic b ->
  is_space a = true -> is_space b = true.
Proof.
  unfold canonicalize, is_space. intros Hc Ha.
  destruct ic; simpl in Hc; [|now subst].
  destruct (N.leb 97 a && N.leb a 122) eqn:Ea.
  - apply andb_prop in Ea. destruct Ea as [E1 E2].
    apply N.leb_le in E1, E2. exfalso.
    repeat rewrite orb_true_iff in Ha. repeat rewrite andb_true_iff in Ha.
    repeat rewrite N.leb_le in Ha. repeat rewrite N.eqb_eq in Ha. lia.
  - destruct (N.leb 97 b && N.leb b 122) eqn:Eb; [|now subst].
    apply andb_prop in Eb. destruct Eb as [E1 E2].
    apply N.leb_le in E1, E2. exfalso.
    repeat rewrite orb_true_iff in Ha. repeat rewrite andb_true_iff in Ha.
    repeat rewrite N.leb_le in Ha. repeat rewrite N.eqb_eq in Ha. lia.
Qed.

Lemma Matches_spells (r : regex) (w : jsstring) :
  Matches ic r w -> forall m, spells ic w m -> Matches ic r m.
Proof.
  unfold spells. induction 1; intros m Hm.
  - inversion Hm. constructor.
  - inversion Hm as [|a b la lb Hab Hl]; subst. inversion Hl; subst.
    constructor. unfold chr_match in *. apply N.eqb_eq in H.
    apply N.eqb_eq. congruence.
  - inversion Hm as [|a b la lb Hab Hl]; subst. inversion Hl; subst.
    constructor. eapply canonicalize_space; eauto.
  - apply Forall2_app_inv_l in Hm.
    destruct Hm as [m1 [m2 [H1 [H2 ->]]]]. constructor; auto.
  - apply MAltL. auto.
  - apply MAltR. auto.
  - inversion Hm. constructor.
  - apply Forall2_app_inv_l in Hm.
    destruct Hm as [m1 [m2 [H1 [H2 ->]]]]. constructor; auto.
Qed.

Lemma canonicalize_newline (a : N) :
  canonicalize ic a = canonicalize ic JsString.newline ->
  a = JsString.newline.
Proof.
  unfold canonicalize, JsString.newline.
  destruct ic; simpl; [|auto].
  destruct (N.leb 97 a && N.leb a 122) eqn:Ea; [|auto].
  apply andb_prop in Ea. destruct Ea as [E1 E2].
  apply N.leb_le in E1, E2. lia.
Qed.

Lemma spells_newline (w m : jsstring) :
  spells ic w m -> In JsString.newline m -> In JsString.newline w.
Proof.
  induction 1 as [|a b la lb Hab Hl IH]; intros Hin; [assumption|].
  destruct Hin as [->|Hin].
  - left. now apply canonicalize_newline.
  - right. auto.
Qed.

End RegExpFacts.

(** [test] finds exactly the texts that contain a match. *)
Lemma test_spec (re : RegExp.t) (s : jsstring) :
  RegExp.test re s = true <->
  exists pre m post,
    s = pre ++ m ++ post
    /\ RegExp.Matches (RegExp.ignoreCase re) (RegExp.source re) m.
Proof.
  unfold RegExp.test. split.
  - apply search_sound.
  - intros [pre [m [post [-> H]]]]. now apply search_complete.
Qed.

(* ================================================================= *)
(** ** Facts about the analyzer *)

Section AnalyzerFacts.
Import RegExp Analyzer Spec.
Local Open Scope nat_scope.

Lemma check_line_In (n : nat) (l : jsstring) (r : PatternRule) :
  In r dangerousPatterns -> test (rule_pattern r) l = true ->
  In (violation_of n r) (check_line n l).
Proof.
  intros Hr Ht. unfold check_line. apply in_flat_map.
  exists r. split; [assumption|]. rewrite Ht. now left.
Qed.

Lemma check_lines_app (l1 l2 : list jsstring) :
  forall index,
    check_lines index (l1 ++ l2)
    = check_lines index l1 ++ check_lines (index + List.length l1) l2.
Proof.
  induction l1 as [|l l1 IH]; intros index; cbn [app check_lines List.length].
  - now rewrite Nat.add_0_r.
  - replace (index + S (List.length l1)) with (S index + List.length l1)
      by lia.
    now rewrite IH, app_assoc.
Qed.

(** The violation of a matching rule on the line of index [k] carries
    the line number [k + 1]. *)
Lemma check_lines_nth (lines : list jsstring) :
  forall index k l r,
    nth_error lines k = Some l ->
    In r dangerousPatterns -> test (rule_pattern r) l = true ->
    In (violation_of (index + k + 1) r) (check_lines index lines).
Proof.
  induction lines as [|l0 lines IH]; intros index k l r Hk Hr Ht.
  - destruct k; discriminate.
  - simpl. apply in_or_app. destruct k as [|k]; simpl in Hk.
    + injection Hk as ->. left. rewrite Nat.add_0_r.
      now apply check_line_In.
    + right. replace (index + S k + 1) with (S index + k + 1) by lia.
      eapply IH; eauto.
Qed.

Lemma allowed_false_iff (code : jsstring) :
  allowed (analyzeSecurity code) = false <->
  (exists v, In v (violations (analyzeSecurity code)) /\ severity v = high)
  \/ 5 < List.length (violations (analyzeSecurity code)).
Proof.
  unfold analyzeSecurity. cbn [allowed violations].
  rewrite andb_false_iff, !negb_false_iff, Nat.ltb_lt. split.
  - intros [H|H]; [left|now right].
    apply existsb_exists in H. destruct H as [v [Hv Hs]].
    exists v. split; [assumption|]. now destruct (severity v).
  - intros [[v [Hv Hs]]|H]; [left|now right].
    apply existsb_exists. exists v. split; [assumption|]. now rewrite Hs.
Qed.

Lemma high_violation_blocks (code : jsstring) (v : SecurityViolation) :
  In v (violations (analyzeSecurity code)) -> severity v = high ->
  allowed (analyzeSecurity code) = false.
Proof. intros Hv Hs. apply allowed_false_iff. left. eauto. Qed.

Lemma count_severity_le (s : Severity) (vs : list SecurityViolation) :
  count_severity s vs <= List.length vs.
Proof. unfold count_severity. apply filter_length_le. Qed.

(** Running the derivatives over a whole text decides membership. *)
Lemma derivs_Matches (ic : bool) (w : jsstring) :
  forall r, nullable (fold_left (fun r c => deriv ic c r) w r) = true ->
            Matches ic r w.
Proof.
  induction w as [|c w IH]; intros r H; simpl in H.
  - now apply nullable_Matches_nil.
  - apply deriv_Matches. now apply IH.
Qed.

(** A rule whose expression accepts the literal [w] reports every text
    that contains a spelling of [w], on the line where it stands. *)
Lemma literal_rule_fires (w : jsstring) (r : PatternRule)
      (pre m post : jsstring) :
  In r dangerousPatterns ->
  Matches (ignoreCase (rule_pattern r)) (source (rule_pattern r)) w ->
  ~ In JsString.newline w ->
  spells (ignoreCase (rule_pattern r)) w m ->
  In (violation_of (S (newlines pre)) r)
     (violations (analyzeSecurity (pre ++ m ++ post))).
Proof.
  intros Hr Hw Hnl Hm.
  assert (Hm' : ~ In JsString.newline m).
  { intros Hin. apply Hnl. eapply spells_newline; eauto. }
  destruct (@split_locate pre m post Hm') as [l [rest Hk]].
  unfold analyzeSecurity. cbn [violations].
  replace (S (newlines pre)) with (0 + newlines pre + 1) by lia.
  eapply check_lines_nth; eauto.
  apply test_spec. exists l, m, rest. split; [reflexivity|].
  eapply Matches_spells; eauto.
Qed.

Lemma Qplus_nonneg (a b : Q) : (0 <= a -> 0 <= b -> 0 <= a + b)%Q.
Proof.
  intros Ha Hb. change 0%Q with (0 + 0)%Q. now apply Qplus_le_compat.
Qed.

Lemma nat_Q_nonneg (n : nat) : (0 <= nat_Q n)%Q.
Proof.
  unfold nat_Q. change 0%Q with (inject_Z 0). rewrite <- Zle_Qle. lia.
Qed.

Lemma tenth_nonneg (n : nat) : (0 <= nat_Q n / 10)%Q.
Proof.
  unfold Qdiv. apply Qmult_le_0_compat; [apply nat_Q_nonneg|].
  unfold Qle. simpl. lia.
Qed.

Lemma rawScore_nonneg (code : jsstring) (lines : list jsstring)
      (vs : list SecurityViolation) :
  (0 <= rawScore code lines vs)%Q.
Proof.
  unfold rawScore.
  repeat apply Qplus_nonneg;
    try apply nat_Q_nonneg; try apply tenth_nonneg. apply Qle_refl.
Qed.

Lemma nat_Q_mul (n k : nat) : (nat_Q (n * k) == nat_Q k * nat_Q n)%Q.
Proof.
  unfold nat_Q. rewrite Nat2Z.inj_mul, inject_Z_mult. apply Qmult_comm.
Qed.

End AnalyzerFacts.

(* ================================================================= *)
(** ** Properties of the analyzer *)

Section AnalyzerProperties.
Import RegExp Analyzer Spec.
Local Open Scope nat_scope.

(** C1.  For every source the report blocks ([allowed = false]) exactly
    when some violation has severity [high] or there are more than five
    violations; in particular six medium-severity violations and no
    high-severity one give [allowed = false]. *)
Theorem C1_allowed_policy (code : jsstring) :
  (allowed (analyzeSecurity code) = false <->
   (exists v, In v (violations (analyzeSecurity code)) /\ severity v = high)
   \/ 5 < List.length (violations (analyzeSecurity code)))
  /\ (count_severity medium (violations (analyzeSecurity code)) = 6 ->
      count_severity high (violations (analyzeSecurity code)) = 0 ->
      allowed (analyzeSecurity code) = false).
Proof.
  split; [apply allowed_false_iff|].
  intros Hm _. apply allowed_false_iff. right.
  pose proof (count_severity_le medium (violations (analyzeSecurity code))).
  lia.
Qed.

(** Scenario E on a concrete source: six medium matches, no high one. *)
Lemma C1_six_medium_blocked :
  count_severity medium (violations (analyzeSecurity Inputs.six_medium)) = 6
  /\ count_severity high (violations (analyzeSecurity Inputs.six_medium)) = 0
  /\ allowed (analyzeSecurity Inputs.six_medium) = false.
Proof.
  split; [vm_compute; reflexivity|].
  split; [vm_compute; reflexivity|].
  apply (proj2 (C1_allowed_policy Inputs.six_medium));
    vm_compute; reflexivity.
Defined.

(** C2 as stated fails: [EVAL(] spells [eval(] up to case, and the
    analyzer reports nothing on it. *)
Lemma C2_uppercase_eval_allowed :
  contains true (js "eval(") Inputs.shouted_eval
  /\ allowed (analyzeSecurity Inputs.shouted_eval) = true
  /\ violations (analyzeSecurity Inputs.shouted_eval) = [].
Proof.
  split.
  - exists [], Inputs.shouted_eval, []. split; [reflexivity|].
    unfold spells. vm_compute. repeat constructor.
  - split; vm_compute; reflexivity.
Qed.

(** C2, amended.  A source that contains [eval(], [Function(], [fetch(]
    or [process.] as written, or [while(true)] or [for(;;)] in any
    letter case, is blocked, and the report holds a high-severity
    violation with the label of that rule on the line of the match. *)
Theorem C2_high_literal_blocked
        (ic : bool) (w name : string) (pre m post : jsstring) :
  In (ic, w, name) high_literals ->
  spells ic (js w) m ->
  allowed (analyzeSecurity (pre ++ m ++ post)) = false
  /\ exists v,
      In v (violations (analyzeSecurity (pre ++ m ++ post)))
      /\ line v = S (newlines pre)
      /\ pattern v = name
      /\ severity v = high.
Proof.
  intros Hin Hm.
  assert (Hv : exists v,
             In v (violations (analyzeSecurity (pre ++ m ++ post)))
             /\ line v = S (newlines pre)
             /\ pattern v = name /\ severity v = high).
  { assert (Hfire : forall k r,
               nth_error dangerousPatterns k = Some r ->
               ignoreCase (rule_pattern r) = ic ->
               nullable (fold_left (fun r c => deriv ic c r) (js w)
                                   (source (rule_pattern r))) = true ->
               existsb (N.eqb JsString.newline) (js w) = false ->
               In (violation_of (S (newlines pre)) r)
                  (violations (analyzeSecurity (pre ++ m ++ post)))).
    { intros k r Hk Hic Hn Hnl. apply literal_rule_fires with (w := js w).
      - eapply nth_error_In; eauto.
      - rewrite Hic. now apply derivs_Matches.
      - intros Hc. enough (existsb (N.eqb JsString.newline) (js w) = true)
          by congruence.
        apply existsb_exists. exists JsString.newline.
        split; [assumption|apply N.eqb_refl].
      - now rewrite Hic. }
    simpl in Hin.
    destruct Hin as [E|[E|[E|[E|[E|[E|[]]]]]]];
      injection E as <- <- <-;
      [ eexists; split; [apply (Hfire 0%nat); reflexivity|]
      | eexists; split; [apply (Hfire 1%nat); reflexivity|]
      | eexists; split; [apply (Hfire 8%nat); reflexivity|]
      | eexists; split; [apply (Hfire 4%nat); reflexivity|]
      | eexists; split; [apply (Hfire 13%nat); reflexivity|]
      | eexists; split; [apply (Hfire 14%nat); reflexivity|] ];
      repeat split. }
  split; [|exact Hv].
  destruct Hv as [v [Hv [_ [_ Hs]]]].
  eapply high_violation_blocks; eauto.
Qed.

(** C2 at a mixed-case spelling of the loop literal. *)
Lemma C2_mixed_case_loop_blocked :
  In (true, "while(true)", "infinite loop")%string high_literals
  /\ spells true (js "while(true)") (js "While(TRUE)")
  /\ allowed (analyzeSecurity (js "x = 1; " ++ js "While(TRUE)" ++ js " {}"))
     = false.
Proof.
  assert (Hin : In (true, "while(true)", "infinite loop")%string
                   high_literals) by (simpl; tauto).
  assert (Hs : spells true (js "while(true)") (js "While(TRUE)"))
    by (unfold spells; vm_compute; repeat constructor).
  split; [exact Hin|]. split; [exact Hs|].
  exact (proj1 (@C2_high_literal_blocked true "while(true)" "infinite loop"
                  (js "x = 1; ") (js "While(TRUE)") (js " {}") Hin Hs)).
Defined.

(** C3 as stated fails: the score of the empty source is not zero. *)
Lemma C3_empty_score_not_zero :
  ~ (complexityScore (analyzeSecurity []) == 0)%Q.
Proof. vm_compute. discriminate. Qed.

(** C3, amended.  On the empty source the analyzer allows, reports no
    violation, and scores one tenth: the single empty line of the split
    divided by ten. *)
Theorem C3_empty_source :
  allowed (analyzeSecurity []) = true
  /\ violations (analyzeSecurity []) = []
  /\ (complexityScore (analyzeSecurity []) == 1 # 10)%Q.
Proof. repeat split. Qed.

(** C4 as stated fails: the score of the empty source is not an integer. *)
Lemma C4_score_not_integer :
  ~ is_integer (complexityScore (analyzeSecurity [])).
Proof.
  intros [z Hz].
  assert (E : complexityScore (analyzeSecurity []) = (1 # 10)%Q)
    by (vm_compute; reflexivity).
  rewrite E in Hz. unfold Qeq in Hz. simpl in Hz. lia.
Qed.

(** C4, amended.  For every source the score is a rational number in
    [0,100], not below one tenth, and equals the clamp to [0,100] of ten
    per violation, plus the number of lines divided by ten without
    rounding, plus five per occurrence of [function] and three per
    occurrence of [class]. *)
Theorem C4_score_clamped (code : jsstring) :
  (0 <= complexityScore (analyzeSecurity code))%Q
  /\ (complexityScore (analyzeSecurity code) <= 100)%Q
  /\ (1 # 10 <= complexityScore (analyzeSecurity code))%Q
  /\ (complexityScore (analyzeSecurity code) == spec_score code)%Q.
Proof.
  set (raw := rawScore code (JsString.split code)
                       (check_lines 0 (JsString.split code))).
  assert (Hraw : (0 <= raw)%Q) by apply rawScore_nonneg.
  assert (Hscore : complexityScore (analyzeSecurity code) = Qmin raw 100)
    by reflexivity.
  assert (Hlow : (1 # 10 <= raw)%Q).
  { unfold raw, rawScore.
    assert (Hl : (1 # 10 <= nat_Q (List.length (JsString.split code)) / 10)%Q).
    { destruct (JsString.split code) as [|l ls] eqn:E;
        [now apply split_nonempty in E|].
      unfold Qdiv. change (1 # 10)%Q with (1 * / 10)%Q.
      apply Qmult_le_compat_r; [|unfold Qle; simpl; lia].
      unfold nat_Q. change 1%Q with (inject_Z 1). rewrite <- Zle_Qle.
      simpl List.length. lia. }
    set (a := nat_Q (List.length (check_lines 0 (JsString.split code)) * 10)).
    set (f := nat_Q (JsString.match_count (js "function") code * 5)).
    set (c := nat_Q (JsString.match_count (js "class") code * 3)).
    assert (Ha : (0 <= a)%Q) by apply nat_Q_nonneg.
    assert (Hf : (0 <= f)%Q) by apply nat_Q_nonneg.
    assert (Hc : (0 <= c)%Q) by apply nat_Q_nonneg.
    set (t := (nat_Q (List.length (JsString.split code)) / 10)%Q) in *.
    apply Qle_trans with (0 + 0 + t + 0 + 0)%Q.
    - ring_simplify. exact Hl.
    - repeat apply Qplus_le_compat; try assumption; apply Qle_refl. }
  rewrite Hscore. repeat split.
  - apply Q.min_glb; [assumption|unfold Qle; simpl; lia].
  - apply Q.le_min_r.
  - apply Q.min_glb; [assumption|unfold Qle; simpl; lia].
  - unfold spec_score, clamp. cbn [violations analyzeSecurity].
    fold raw.
    assert (Heq : (raw ==
              10 * nat_Q (List.length (check_lines 0 (JsString.split code)))
              + nat_Q (List.length (JsString.split code)) / 10
              + 5 * nat_Q (JsString.match_count (js "function") code)
              + 3 * nat_Q (JsString.match_count (js "class") code))%Q).
    { unfold raw, rawScore. rewrite !nat_Q_mul.
      change (nat_Q 10) with 10%Q. change (nat_Q 5) with 5%Q.
      change (nat_Q 3) with 3%Q. rewrite Qplus_0_l. reflexivity. }
    rewrite <- Heq. symmetry. apply Q.max_r.
    apply Q.min_glb; [assumption|unfold Qle; simpl; lia].
Qed.

(** C9.  Appending a newline and a single line matched by a
    high-severity rule to a blocked source leaves it blocked. *)
Theorem C9_append_high_line (s t : jsstring) :
  allowed (analyzeSecurity s) = false ->
  single_line t = true ->
  matches_high t = true ->
  allowed (analyzeSecurity (s ++ [JsString.newline] ++ t)) = false.
Proof.
  intros _ Hline Hhigh.
  apply existsb_exists in Hhigh. destruct Hhigh as [r [Hr Hrt]].
  apply andb_prop in Hrt. destruct Hrt as [Hsev Htest].
  apply high_violation_blocks
    with (v := violation_of (0 + List.length (JsString.split s) + 1) r).
  - unfold analyzeSecurity. cbn [violations app].
    rewrite split_app_newline.
    apply check_lines_nth with (l := t); [|assumption|assumption].
    rewrite nth_error_app2 by lia. rewrite Nat.sub_diag.
    rewrite split_single_line; [reflexivity|].
    now apply single_line_notin.
  - simpl. now destruct (rule_severity r).
Qed.

(** C9 at a blocked source followed by a loop line. *)
Lemma C9_blocked_stays_blocked :
  allowed (analyzeSecurity Inputs.blocked_source) = false
  /\ single_line Inputs.loop_line = true
  /\ matches_high Inputs.loop_line = true
  /\ allowed (analyzeSecurity
                (Inputs.blocked_source ++ [JsString.newline]
                 ++ Inputs.loop_line)) = false.
Proof.
  assert (H1 : allowed (analyzeSecurity Inputs.blocked_source) = false)
    by (vm_compute; reflexivity).
  assert (H2 : single_line Inputs.loop_line = true)
    by (vm_compute; reflexivity).
  assert (H3 : matches_high Inputs.loop_line = true)
    by (vm_compute; reflexivity).
  split; [exact H1|]. split; [exact H2|]. split; [exact H3|].
  exact (@C9_append_high_line Inputs.blocked_source Inputs.loop_line
           H1 H2 H3).
Defined.

End AnalyzerProperties.

(* ================================================================= *)
(** ** Properties of the executor *)

Section ExecutorProperties.
Import Executor Spec.

Lemma sandboxConsole_fields (m : ConsoleMethod) (args : list JsArg)
      (st : ExecResult) :
  output (sandboxConsole m args st)
  = output st ++ (if is_console_error m then [] else console_line m args)
  /\ error (sandboxConsole m args st)
     = error st ++ (if is_console_error m then console_line m args else [])
  /\ success (sandboxConsole m args st) = success st
  /\ exitCode (sandboxConsole m args st) = exitCode st.
Proof.
  destruct m; cbn [sandboxConsole is_console_error output error
                   success exitCode];
    rewrite ?app_nil_r; auto.
Qed.

Lemma run_calls_cons (c : ConsoleCall) (calls : list ConsoleCall)
      (st : ExecResult) :
  run_calls (c :: calls) st
  = run_calls calls (sandboxConsole (fst c) (snd c) st).
Proof. reflexivity. Qed.

(** The console calls only append: the output buffer grows by the lines
    of the log, warn and info calls, the error buffer by those of the
    error calls. *)
Lemma run_calls_buffers (calls : list ConsoleCall) :
  forall st,
    output (run_calls calls st) = output st ++ output_text calls
    /\ error (run_calls calls st) = error st ++ error_text calls
    /\ success (run_calls calls st) = success st
    /\ exitCode (run_calls calls st) = exitCode st.
Proof.
  induction calls as [|c calls IH]; intros st.
  - cbn. now rewrite !app_nil_r.
  - rewrite run_calls_cons.
    destruct (IH (sandboxConsole (fst c) (snd c) st)) as [Ho [He [Hs Hx]]].
    destruct (sandboxConsole_fields (fst c) (snd c) st)
      as [Ho' [He' [Hs' Hx']]].
    rewrite Ho, He, Hs, Hx, Ho', He', Hs', Hx'.
    unfold output_text, error_text. cbn [flat_map].
    now rewrite <- !app_assoc.
Qed.

Lemma run_calls_initial (calls : list ConsoleCall) :
  run_calls calls initial
  = {| success := false; output := output_text calls;
       error := error_text calls; exitCode := 0 |}.
Proof.
  destruct (run_calls_buffers calls initial) as [Ho [He [Hs Hx]]].
  destruct (run_calls calls initial) as [s o e x].
  cbn in *. now subst.
Qed.

(** The outcome of a run, ending by ending. *)
Lemma executeJavaScript_Runs (calls : list ConsoleCall) (fin : CodeEnd)
      (timeout : Z) :
  executeJavaScript (Runs calls fin) timeout
  = match fin with
    | FallsThrough =>
        Resolves {| success := true; output := output_text calls;
                    error := error_text calls; exitCode := 0 |}
    | ThrowsInTry e => Resolves (failed calls (wrapper_text e))
    | ReturnsOwn v => raced calls v timeout
    | Escapes e => Resolves (failed calls (catch_text e))
    | LoopsForever => NeverSettles
    | Interferes after => raced calls (Rigged after) timeout
    end.
Proof.
  cbv beta zeta delta [executeJavaScript try_catch bind safeExecute].
  destruct fin as [|e|v|e| |after];
    cbv beta iota zeta; rewrite ?run_calls_initial.
  - reflexivity.
  - unfold failed, wrapper_text, catch_text.
    destruct (describe_raises e) as [x|]; reflexivity.
  - unfold raced, settled, yielded, failed, catch_text.
    destruct v as [r|[r|e]|tf [r|e]| |after]; cbn;
      try (destruct (tf timeout); cbn);
      try (destruct (r_success_again r); reflexivity);
      try reflexivity.
    destruct (after timeout) as [r|[e|x]|]; cbn;
      try (destruct (r_success_again r); reflexivity); reflexivity.
  - reflexivity.
  - reflexivity.
  - unfold raced, yielded, failed, catch_text. cbn.
    destruct (after timeout) as [r|[e|x]|]; cbn;
      try (destruct (r_success_again r); reflexivity); reflexivity.
Qed.




(** C6.  With a one-second timeout and a promise that never settles, the
    timer wins the race; the error text reads [1ms], not [1s]. *)
Theorem C6_timeout_message_unit :
  executeJavaScript Inputs.pending_script 1
  = Resolves {| success := false; output := [];
                error := js "Execution timeout after 1ms"; exitCode := 1 |}
  /\ js "Execution timeout after 1ms" <> js "Execution timeout after 1s".
Proof. split; [reflexivity|discriminate]. Qed.




(** For a promise that settles after two seconds the timeout decides:
    ten seconds give its value, one second gives the timeout error. *)
Lemma timeout_decides_slow_promise :
  executeJavaScript Inputs.slow_promise_script 10
  = Resolves {| success := true; output := []; error := []; exitCode := 0 |}
  /\ executeJavaScript Inputs.slow_promise_script 1
     = Resolves {| success := false; output := [];
                   error := timeout_message 1; exitCode := 1 |}.
Proof. split; reflexivity. Qed.

Lemma timeout_irrelevant (script : Script) (t1 t2 : Z) :
  settled_on_return script = true ->
  executeJavaScript script t1 = executeJavaScript script t2.
Proof.
  intros H. destruct script as [e|calls fin]; [reflexivity|].
  rewrite !executeJavaScript_Runs.
  destruct fin as [|e|v|e| |after]; try reflexivity; try discriminate.
  destruct v as [r|s|tf s| |after]; try reflexivity; discriminate.
Qed.



End ExecutorProperties.

(* ================================================================= *)
(** ** Properties of the request handler *)

Section HandlerProperties.
Import Analyzer Spec.

(** C8 as stated fails: the blocked response reports the measured time,
    a quarter of a second when the clock advanced by 250 ms. *)
Lemma C8_blocked_time_not_zero :
  match Handler.handleExecute Inputs.idle_engine 10 1000 1250
                              Inputs.blocked_request with
  | Some {| Handler.status := st; Handler.body := Handler.Result r |} =>
      st = 400%Z
      /\ Handler.error r = js "Code blocked by security policy"
      /\ Handler.sr_allowed (Handler.security_report r) = false
      /\ ~ (Handler.execution_time r == 0)%Q
  | _ => False
  end.
Proof.
  vm_compute. repeat split. discriminate.
Qed.

(** C8, amended.  When the analysis blocks the submitted code, the
    response has status 400, success false, empty output, the error
    [Code blocked by security policy], exit code 1, the time elapsed
    since the handler started, in seconds, and the blocking report,
    whose [allowed] is false. *)
Theorem C8_blocked_response
        (engine : jsstring -> Executor.Script)
        (defaultTimeout startTime now : Z)
        (request : Handler.Request) (payload : Handler.Payload)
        (source : jsstring) :
  Handler.method request = js "POST" ->
  Handler.json request = inl payload ->
  Handler.code payload = Some source ->
  source <> [] ->
  Handler.unsupported (Handler.language payload) = false ->
  allowed (analyzeSecurity source) = false ->
  Handler.handleExecute engine defaultTimeout startTime now request
  = Some {| Handler.status := 400;
            Handler.body := Handler.Result
              {| Handler.success := false;
                 Handler.output := [];
                 Handler.error := js "Code blocked by security policy";
                 Handler.exit_code := 1;
                 Handler.execution_time :=
                   (inject_Z (now - startTime) / 1000)%Q;
                 Handler.security_report :=
                   Handler.report_json (analyzeSecurity source) |} |}
  /\ Handler.sr_allowed (Handler.report_json (analyzeSecurity source))
     = false.
Proof.
  intros Hm Hj Hc Hne Hl Ha. split; [|exact Ha].
  unfold Handler.handleExecute. rewrite Hm, Hj, Hc, Hl, Ha.
  destruct source as [|c source]; [contradiction|]. reflexivity.
Qed.

(** C8 at a request whose code calls [eval]. *)
Lemma C8_blocked_eval_request :
  Handler.handleExecute Inputs.idle_engine 10 1000 1250
                        Inputs.blocked_request
  = Some {| Handler.status := 400;
            Handler.body := Handler.Result
              {| Handler.success := false;
                 Handler.output := [];
                 Handler.error := js "Code blocked by security policy";
                 Handler.exit_code := 1;
                 Handler.execution_time :=
                   (inject_Z (1250 - 1000) / 1000)%Q;
                 Handler.security_report :=
                   Handler.report_json (analyzeSecurity (js "eval(1)")) |} |}
  /\ Handler.sr_allowed
       (Handler.report_json (analyzeSecurity (js "eval(1)"))) = false.
Proof.
  apply (@C8_blocked_response Inputs.idle_engine 10 1000 1250
           Inputs.blocked_request
           {| Handler.code := Some (js "eval(1)");
              Handler.language := Some (js "javascript");
              Handler.timeout := None |}
           (js "eval(1)")).
  - reflexivity.
  - reflexivity.
  - reflexivity.
  - vm_compute. discriminate.
  - vm_compute. reflexivity.
  - vm_compute. reflexivity.
Defined.

End HandlerProperties.


(* ================================================================= *)
(** ** Further properties of the analyzer *)

Section AnalyzerStructure.
Import RegExp Analyzer Spec Extra.
Local Open Scope nat_scope.

Lemma check_line_inv (n : nat) (l : jsstring) (v : SecurityViolation) :
  In v (check_line n l) ->
  exists r, In r dangerousPatterns /\ test (rule_pattern r) l = true
            /\ v = violation_of n r.
Proof.
  unfold check_line. intros H. apply in_flat_map in H.
  destruct H as [r [Hr Hv]]. exists r.
  destruct (test (rule_pattern r) l); [|contradiction].
  destruct Hv as [<-|[]]. auto.
Qed.

Lemma check_lines_inv (lines : list jsstring) :
  forall index v,
    In v (check_lines index lines) ->
    exists k l r,
      nth_error lines k = Some l /\ In r dangerousPatterns
      /\ test (rule_pattern r) l = true
      /\ v = violation_of (index + k + 1) r.
Proof.
  induction lines as [|l0 lines IH]; intros index v H; [contradiction|].
  cbn [check_lines] in H. apply in_app_or in H. destruct H as [H|H].
  - apply check_line_inv in H. destruct H as [r [Hr [Ht ->]]].
    exists 0, l0, r. rewrite Nat.add_0_r. auto.
  - apply IH in H. destruct H as [k [l [r [Hk [Hr [Ht ->]]]]]].
    exists (S k), l, r. repeat split; auto. f_equal. lia.
Qed.

Lemma In_violations_iff (code : jsstring) (v : SecurityViolation) :
  In v (violations (analyzeSecurity code)) <->
  exists k l r,
    nth_error (JsString.split code) k = Some l
    /\ In r dangerousPatterns
    /\ test (rule_pattern r) l = true
    /\ v = violation_of (S k) r.
Proof.
  unfold analyzeSecurity. cbn [violations]. split.
  - intros H. apply check_lines_inv in H.
    destruct H as [k [l [r [Hk [Hr [Ht ->]]]]]].
    exists k, l, r. repeat split; auto. f_equal. lia.
  - intros [k [l [r [Hk [Hr [Ht ->]]]]]].
    replace (S k) with (0 + k + 1) by lia.
    eapply check_lines_nth; eauto.
Qed.

(** X1.  The violations of a report are exactly the pairs of a line of
    the source and a catalogue rule whose expression matches that line,
    each carrying the number of the line, counted from one. *)
Theorem X1_violations_characterized (code : jsstring) (v : SecurityViolation) :
  In v (violations (analyzeSecurity code)) <->
  exists k l r,
    nth_error (JsString.split code) k = Some l
    /\ In r dangerousPatterns
    /\ test (rule_pattern r) l = true
    /\ v = violation_of (S k) r.
Proof. apply In_violations_iff. Qed.

Lemma check_line_lines (n : nat) (l : jsstring) :
  Forall (fun v => line v = n) (check_line n l).
Proof.
  apply Forall_forall. intros v H. apply check_line_inv in H.
  destruct H as [r [_ [_ ->]]]. reflexivity.
Qed.

Lemma check_lines_range (lines : list jsstring) :
  forall index,
    Forall (fun v => index < line v <= index + List.length lines)
           (check_lines index lines).
Proof.
  intros index. apply Forall_forall. intros v H.
  apply check_lines_inv in H. destruct H as [k [l [r [Hk [_ [_ ->]]]]]].
  assert (k < List.length lines) by (apply nth_error_Some; congruence).
  cbn [violation_of line]. lia.
Qed.

Lemma StronglySorted_app (A : Type) (R : A -> A -> Prop) (l1 l2 : list A) :
  StronglySorted R l1 -> StronglySorted R l2 ->
  (forall a b, In a l1 -> In b l2 -> R a b) ->
  StronglySorted R (l1 ++ l2).
Proof.
  induction l1 as [|a l1 IH]; intros H1 H2 H12; [assumption|].
  cbn [app]. inversion H1; subst. constructor.
  - apply IH; auto. intros x y Hx Hy. apply H12; [now right|assumption].
  - apply Forall_app. split; [assumption|].
    apply Forall_forall. intros y Hy. apply H12; [now left|assumption].
Qed.

Lemma check_line_sorted (n : nat) (l : jsstring) :
  StronglySorted (fun a b => line a <= line b) (check_line n l).
Proof.
  pose proof (check_line_lines n l) as H.
  induction (check_line n l) as [|v vs IH]; [constructor|].
  inversion H; subst. constructor; [auto|].
  eapply Forall_impl; [|eassumption]. cbn. intros a Ha. lia.
Qed.

Lemma check_lines_sorted (lines : list jsstring) :
  forall index,
    StronglySorted (fun a b => line a <= line b) (check_lines index lines).
Proof.
  induction lines as [|l lines IH]; intros index; [constructor|].
  cbn [check_lines]. apply StronglySorted_app.
  - apply check_line_sorted.
  - apply IH.
  - intros a b Ha Hb.
    pose proof (check_line_lines (index + 1) l) as H1.
    rewrite Forall_forall in H1. rewrite (H1 a Ha).
    pose proof (check_lines_range lines (S index)) as H2.
    rewrite Forall_forall in H2. specialize (H2 b Hb). lia.
Qed.

(** X2.  The violations come in document order: their line numbers
    never decrease along the list, and each lies between one and the
    number of lines of the source. *)
Theorem X2_violations_in_line_order (code : jsstring) :
  StronglySorted (fun a b => line a <= line b)
                 (violations (analyzeSecurity code))
  /\ Forall (fun v => 1 <= line v <= List.length (JsString.split code))
            (violations (analyzeSecurity code)).
Proof.
  unfold analyzeSecurity. cbn [violations]. split.
  - apply check_lines_sorted.
  - pose proof (check_lines_range (JsString.split code) 0) as H.
    eapply Forall_impl; [|exact H]. cbn. unfold jsstring. intros v Hv. lia.
Qed.

Lemma check_line_length (n : nat) (l : jsstring) :
  List.length (check_line n l) <= List.length dangerousPatterns.
Proof.
  unfold check_line. induction dangerousPatterns as [|r rs IH];
    cbn [flat_map List.length]; [lia|].
  rewrite length_app. destruct (test (rule_pattern r) l); cbn; lia.
Qed.

Lemma check_lines_length (lines : list jsstring) :
  forall index,
    List.length (check_lines index lines)
    <= List.length dangerousPatterns * List.length lines.
Proof.
  induction lines as [|l lines IH]; intros index; cbn [check_lines List.length].
  - lia.
  - rewrite length_app.
    pose proof (check_line_length (index + 1) l).
    pose proof (IH (S index)). lia.
Qed.

(** X3.  A report holds at most fifteen violations per line of the
    source, one per rule of the catalogue. *)
Theorem X3_violations_bounded (code : jsstring) :
  List.length (violations (analyzeSecurity code))
  <= 15 * List.length (JsString.split code).
Proof.
  unfold analyzeSecurity. cbn [violations].
  exact (check_lines_length (JsString.split code) 0).
Qed.

Lemma check_lines_shift (lines : list jsstring) :
  forall index k,
    check_lines (index + k) lines
    = List.map (shift_line k) (check_lines index lines).
Proof.
  induction lines as [|l lines IH]; intros index k; [reflexivity|].
  cbn [check_lines]. rewrite map_app. f_equal.
  - unfold check_line. rewrite !flat_map_concat_map, concat_map, map_map.
    f_equal. apply map_ext. intros r.
    destruct (test (rule_pattern r) l); [|reflexivity].
    cbn. unfold shift_line. cbn. do 2 f_equal. lia.
  - change (S (index + k)) with (S index + k). apply IH.
Qed.

Lemma violations_of_joined (s t : jsstring) :
  violations (analyzeSecurity (s ++ [JsString.newline] ++ t))
  = violations (analyzeSecurity s)
    ++ List.map (shift_line (List.length (JsString.split s)))
                (violations (analyzeSecurity t)).
Proof.
  unfold analyzeSecurity. cbn [violations app].
  rewrite split_app_newline, check_lines_app, <- check_lines_shift.
  reflexivity.
Qed.

(** X4.  Analysing two texts joined by a newline gives the violations of
    the first followed by those of the second, moved down by the number
    of lines of the first. *)
Theorem X4_violations_of_joined (s t : jsstring) :
  violations (analyzeSecurity (s ++ [JsString.newline] ++ t))
  = violations (analyzeSecurity s)
    ++ List.map (shift_line (List.length (JsString.split s)))
                (violations (analyzeSecurity t)).
Proof. apply violations_of_joined. Qed.

(** X5.  Joining a blocked text with any other text by a newline, on
    either side, gives a blocked text. *)
Theorem X5_blocked_part_blocks_whole (s t : jsstring) :
  allowed (analyzeSecurity s) = false \/ allowed (analyzeSecurity t) = false ->
  allowed (analyzeSecurity (s ++ [JsString.newline] ++ t)) = false.
Proof.
  intros H. apply allowed_false_iff. rewrite violations_of_joined.
  rewrite length_app, length_map.
  destruct H as [H|H]; apply allowed_false_iff in H;
    destruct H as [[v [Hv Hs]]|H].
  - left. exists v. split; [apply in_or_app; now left|assumption].
  - right. lia.
  - left. exists (shift_line (List.length (JsString.split s)) v).
    split; [|exact Hs]. apply in_or_app. right. now apply in_map.
  - right. lia.
Qed.

(** X5 at a blocked text put before and after a harmless one. *)
Lemma X5_blocked_on_either_side :
  (allowed (analyzeSecurity Inputs.blocked_source) = false
   \/ allowed (analyzeSecurity (js "let x = 1;")) = false)
  /\ allowed (analyzeSecurity
                (Inputs.blocked_source ++ [JsString.newline]
                 ++ js "let x = 1;")) = false.
Proof.
  assert (H : allowed (analyzeSecurity Inputs.blocked_source) = false
              \/ allowed (analyzeSecurity (js "let x = 1;")) = false)
    by (left; vm_compute; reflexivity).
  split; [exact H|].
  exact (@X5_blocked_part_blocks_whole Inputs.blocked_source
           (js "let x = 1;") H).
Defined.

(** X6.  Ten violations or more saturate the score at one hundred. *)
Theorem X6_score_saturates (code : jsstring) :
  10 <= List.length (violations (analyzeSecurity code)) ->
  (complexityScore (analyzeSecurity code) == 100)%Q.
Proof.
  intros H. unfold analyzeSecurity in *. cbn [violations complexityScore] in *.
  apply Q.min_r. unfold rawScore.
  set (vs := check_lines 0 (JsString.split code)) in *.
  assert (Hv : (100 <= nat_Q (List.length vs * 10))%Q).
  { unfold nat_Q. change 100%Q with (inject_Z 100). rewrite <- Zle_Qle. lia. }
  pose proof (tenth_nonneg (List.length (JsString.split code))) as Ht.
  pose proof (nat_Q_nonneg (JsString.match_count (js "function") code * 5))
    as Hf.
  pose proof (nat_Q_nonneg (JsString.match_count (js "class") code * 3))
    as Hc.
  apply Qle_trans with (0 + 100 + 0 + 0 + 0)%Q; [unfold Qle; simpl; lia|].
  repeat apply Qplus_le_compat; try assumption; apply Qle_refl.
Qed.

(** X6 at a line matched by ten rules. *)
Lemma X6_ten_violations_score_100 :
  10 <= List.length (violations (analyzeSecurity ten_violations))
  /\ (complexityScore (analyzeSecurity ten_violations) == 100)%Q.
Proof.
  assert (H : 10 <= List.length (violations (analyzeSecurity ten_violations)))
    by (vm_compute; repeat constructor).
  split; [exact H|]. exact (@X6_score_saturates ten_violations H).
Defined.

Lemma spells_refl (ic : bool) (s : jsstring) : spells ic s s.
Proof. unfold spells. induction s; constructor; auto. Qed.

Lemma spells_sym (ic : bool) (s s' : jsstring) :
  spells ic s s' -> spells ic s' s.
Proof. unfold spells. induction 1; constructor; auto. Qed.

Lemma notin_newline (w : jsstring) :
  existsb (N.eqb JsString.newline) w = false -> ~ In JsString.newline w.
Proof.
  intros H Hin. enough (existsb (N.eqb JsString.newline) w = true)
    by congruence.
  apply existsb_exists. exists JsString.newline.
  split; [assumption|apply N.eqb_refl].
Qed.

Lemma Matches_blanks (ic : bool) (ws : jsstring) :
  Forall (fun c => is_space c = true) ws -> Matches ic (Star Space) ws.
Proof.
  induction 1 as [|c ws Hc Hws IH]; [constructor|].
  change (c :: ws) with ([c] ++ ws). constructor; [now constructor|exact IH].
Qed.

Lemma Matches_lit_units (ic : bool) (w : jsstring) :
  Matches ic (lit_units w) w.
Proof.
  induction w as [|c w IH]; [constructor|].
  change (c :: w) with ([c] ++ w). cbn [lit_units].
  constructor; [|exact IH]. constructor.
  unfold chr_match. apply N.eqb_refl.
Qed.

(** X7.  Blanks between the name and the parenthesis do not hide a
    call: for [eval], [Function], [require] and [fetch], any run of
    white space without a newline between the name and [(] is reported
    with the label and severity of the rule, on the line where it
    stands, and blocks the source when that severity is high. *)
Theorem X7_blanks_before_parenthesis
        (name label : string) (sev : Severity) (ws pre post : jsstring) :
  In (name, label, sev) call_rules ->
  Forall (fun c => is_space c = true) ws ->
  ~ In JsString.newline ws ->
  (exists v,
      In v (violations
              (analyzeSecurity (pre ++ (js name ++ ws ++ js "(") ++ post)))
      /\ line v = S (newlines pre)
      /\ pattern v = label /\ severity v = sev)
  /\ (sev = high ->
      allowed (analyzeSecurity (pre ++ (js name ++ ws ++ js "(") ++ post))
      = false).
Proof.
  intros Hin Hws Hnl.
  assert (Hv : exists v,
             In v (violations
                     (analyzeSecurity
                        (pre ++ (js name ++ ws ++ js "(") ++ post)))
             /\ line v = S (newlines pre)
             /\ pattern v = label /\ severity v = sev).
  { assert (Hfire : forall k r,
               nth_error dangerousPatterns k = Some r ->
               source (rule_pattern r)
               = Cat (lit name) (Cat (Star Space) (lit "(")) ->
               existsb (N.eqb JsString.newline) (js name) = false ->
               In (violation_of (S (newlines pre)) r)
                  (violations
                     (analyzeSecurity
                        (pre ++ (js name ++ ws ++ js "(") ++ post)))).
    { intros k r Hk Hsrc Hname.
      apply literal_rule_fires with (w := js name ++ ws ++ js "(").
      - eapply nth_error_In; eauto.
      - rewrite Hsrc. constructor.
        + apply Matches_lit_units.
        + constructor; [now apply Matches_blanks|].
          apply Matches_lit_units.
      - intros Hc. apply in_app_or in Hc. destruct Hc as [Hc|Hc].
        + revert Hc. now apply notin_newline.
        + apply in_app_or in Hc. destruct Hc as [Hc|Hc]; [contradiction|].
          revert Hc. apply notin_newline. reflexivity.
      - apply spells_refl. }
    simpl in Hin.
    destruct Hin as [E|[E|[E|[E|[]]]]]; injection E as <- <- <-;
      [ eexists; split; [apply (Hfire 0); reflexivity|]
      | eexists; split; [apply (Hfire 1); reflexivity|]
      | eexists; split; [apply (Hfire 3); reflexivity|]
      | eexists; split; [apply (Hfire 8); reflexivity|] ];
      repeat split. }
  split; [exact Hv|].
  intros ->. destruct Hv as [v [Hv [_ [_ Hs]]]].
  eapply high_violation_blocks; eauto.
Qed.

(** X7 at [eval], a space, a tab and a no-break space. *)
Lemma X7_eval_with_blanks :
  In ("eval", "eval()", high)%string call_rules
  /\ Forall (fun c => is_space c = true) blanks
  /\ ~ In JsString.newline blanks
  /\ allowed (analyzeSecurity
                (js "x = " ++ (js "eval" ++ blanks ++ js "(") ++ js "1)"))
     = false.
Proof.
  assert (H1 : In ("eval", "eval()", high)%string call_rules)
    by (simpl; tauto).
  assert (H2 : Forall (fun c => is_space c = true) blanks)
    by (repeat constructor).
  assert (H3 : ~ In JsString.newline blanks)
    by (apply notin_newline; reflexivity).
  split; [exact H1|]. split; [exact H2|]. split; [exact H3|].
  exact (proj2 (@X7_blanks_before_parenthesis "eval" "eval()" high blanks
                  (js "x = ") (js "1)") H1 H2 H3) eq_refl).
Defined.

Lemma Forall2_nth_error (A B : Type) (R : A -> B -> Prop)
      (l : list A) (l' : list B) :
  Forall2 R l l' ->
  forall k a, nth_error l k = Some a ->
              exists b, nth_error l' k = Some b /\ R a b.
Proof.
  induction 1 as [|x y l l' Hxy Hl IH]; intros k a Hk.
  - destruct k; discriminate.
  - destruct k as [|k]; cbn in *.
    + injection Hk as <-. eauto.
    + eauto.
Qed.

(** Two spellings of a text have the same lines, up to spelling. *)
Lemma split_spells (ic : bool) (s s' : jsstring) :
  spells ic s s' ->
  Forall2 (spells ic) (JsString.split s) (JsString.split s').
Proof.
  unfold spells at 1. induction 1 as [|a b s s' Hab Hs IH].
  - repeat constructor.
  - destruct (N.eqb a JsString.newline) eqn:Ea.
    + apply N.eqb_eq in Ea. subst a.
      assert (b = JsString.newline)
        by (apply (canonicalize_newline ic); now symmetry).
      subst b. rewrite !split_cons_newline. constructor; [constructor|exact IH].
    + assert (Eb : N.eqb b JsString.newline = false).
      { apply N.eqb_neq. intros ->. apply N.eqb_neq in Ea. apply Ea.
        now apply (canonicalize_newline ic). }
      rewrite !split_cons_other by assumption.
      destruct (JsString.split s) as [|l ls] eqn:E1;
        [now apply split_nonempty in E1|].
      destruct (JsString.split s') as [|l' ls'] eqn:E2;
        [now apply split_nonempty in E2|].
      inversion IH; subst. cbn [hd tl].
      constructor; [constructor; assumption|assumption].
Qed.

Lemma test_spells (re : RegExp.t) (l l' : jsstring) :
  spells (ignoreCase re) l l' -> test re l = true -> test re l' = true.
Proof.
  intros Hs Ht. apply test_spec in Ht.
  destruct Ht as [pre [m [post [-> Hm]]]].
  unfold spells in Hs. apply Forall2_app_inv_l in Hs.
  destruct Hs as [pre' [rest [_ [Hrest ->]]]].
  apply Forall2_app_inv_l in Hrest.
  destruct Hrest as [m' [post' [Hm' [_ ->]]]].
  apply test_spec. exists pre', m', post'. split; [reflexivity|].
  eapply Matches_spells; eauto.
Qed.

Lemma labels_fix_flag_holds (r r0 : PatternRule) :
  In r dangerousPatterns -> In r0 dangerousPatterns ->
  rule_name r = rule_name r0 ->
  ignoreCase (rule_pattern r) = ignoreCase (rule_pattern r0).
Proof.
  intros Hr Hr0 Hn.
  assert (H : labels_fix_flag = true) by (vm_compute; reflexivity).
  unfold labels_fix_flag in H. rewrite forallb_forall in H.
  specialize (H r Hr). rewrite forallb_forall in H. specialize (H r0 Hr0).
  rewrite Hn, String.eqb_refl in H. cbn in H.
  now apply Bool.eqb_prop in H.
Qed.

Lemma ignore_case_violation_kept (code code' : jsstring)
      (v : SecurityViolation) :
  spells true code code' ->
  from_ignore_case_rule v ->
  In v (violations (analyzeSecurity code)) ->
  In v (violations (analyzeSecurity code')).
Proof.
  intros Hs [r [Hr [Hic Hname]]] Hv.
  apply In_violations_iff in Hv.
  destruct Hv as [k [l [r0 [Hk [Hr0 [Ht ->]]]]]].
  assert (Hic0 : ignoreCase (rule_pattern r0) = true).
  { rewrite <- Hic. symmetry. apply labels_fix_flag_holds; auto. }
  destruct (Forall2_nth_error (split_spells Hs) k Hk) as [l' [Hk' Hl]].
  apply In_violations_iff. exists k, l', r0. repeat split; auto.
  apply test_spells with (l := l); [now rewrite Hic0|assumption].
Qed.

(** X8.  Letter case does not matter to the rules with the [i] flag (XHR,
    WebSocket, storage, timers and the two loops): two sources that
    differ only in the case of ASCII letters have the same violations
    with the labels of these rules. *)
Theorem X8_ignore_case_rules_ignore_case
        (code code' : jsstring) (v : SecurityViolation) :
  spells true code code' ->
  from_ignore_case_rule v ->
  (In v (violations (analyzeSecurity code))
   <-> In v (violations (analyzeSecurity code'))).
Proof.
  intros Hs Hv. split.
  - now apply ignore_case_violation_kept.
  - apply ignore_case_violation_kept; [now apply spells_sym|assumption].
Qed.

(** X8 at a WebSocket call written in mixed and in upper case. *)
Lemma X8_websocket_upper_case :
  spells true mixed_case_source upper_case_source
  /\ from_ignore_case_rule
       (violation_of 2 (rule (re_i (lit "WebSocket")) "WebSocket"
                             "WebSocket connections" high))
  /\ In (violation_of 2 (rule (re_i (lit "WebSocket")) "WebSocket"
                              "WebSocket connections" high))
        (violations (analyzeSecurity upper_case_source)).
Proof.
  assert (H1 : spells true mixed_case_source upper_case_source)
    by (unfold spells; vm_compute; repeat constructor).
  assert (H2 : from_ignore_case_rule
                 (violation_of 2 (rule (re_i (lit "WebSocket")) "WebSocket"
                                       "WebSocket connections" high))).
  { exists (rule (re_i (lit "WebSocket")) "WebSocket"
                 "WebSocket connections" high).
    split; [|split; reflexivity].
    apply (nth_error_In dangerousPatterns 10). reflexivity. }
  split; [exact H1|]. split; [exact H2|].
  apply (proj1 (@X8_ignore_case_rules_ignore_case mixed_case_source
                  upper_case_source _ H1 H2)).
  apply In_violations_iff.
  exists 1, (js "new WebSocket(u)"),
    (rule (re_i (lit "WebSocket")) "WebSocket" "WebSocket connections" high).
  split; [reflexivity|]. split.
  - apply (nth_error_In dangerousPatterns 10). reflexivity.
  - split; [vm_compute; reflexivity|reflexivity].
Defined.

End AnalyzerStructure.

(* ================================================================= *)
(** ** Further properties of the executor *)

Section ExecutorOutcomes.
Import Executor Spec Extra.

(** X9.  When both reads of [success] agree on every object the code
    hands to the race, as for a data property, the exit code of a
    result agrees with its success flag: zero when the flag is true, one
    when it is false. *)
Theorem X9_exit_code_mirrors_success (script : Script) (timeout : Z) :
  steady script = true ->
  match executeJavaScript script timeout with
  | Resolves r => exitCode r = if success r then 0%Z else 1%Z
  | _ => True
  end.
Proof.
  intros Hs. destruct script as [e|calls fin]; [reflexivity|].
  rewrite executeJavaScript_Runs.
  destruct fin as [|e|v|e| |after]; try reflexivity; try exact I;
    try discriminate.
  destruct v as [r|[r|e]|tf [r|e]| |after]; cbn in *;
    try (destruct (tf timeout); cbn); try reflexivity; try discriminate;
    apply Bool.eqb_prop in Hs; rewrite <- Hs;
    destruct (r_success r); reflexivity.
Qed.

(** X9 at a script that logs and throws. *)
Lemma X9_throwing_script_exit_code :
  steady Inputs.throwing_script = true
  /\ match executeJavaScript Inputs.throwing_script 10 with
     | Resolves r => exitCode r = if success r then 0%Z else 1%Z
     | _ => True
     end.
Proof.
  split; [reflexivity|].
  exact (@X9_exit_code_mirrors_success Inputs.throwing_script 10 eq_refl).
Defined.

(** Without agreement the flag and the code can disagree: an accessor
    that answers true, then false, gives success with exit code 1. *)
Lemma accessor_success_with_exit_code_1 :
  executeJavaScript Inputs.accessor_script 10
  = Resolves {| success := true; output := []; error := js "e";
                exitCode := 1 |}.
Proof. reflexivity. Qed.




(** With the timer disarmed by the code, the call never settles though
    nothing loops. *)
Lemma disarmed_timer_never_settles :
  executeJavaScript Inputs.disarmed_timer_script 10 = NeverSettles
  /\ loops_forever Inputs.disarmed_timer_script = false.
Proof. split; reflexivity. Qed.





End ExecutorOutcomes.

(* ================================================================= *)
(** ** Further properties of the request handler *)

Section HandlerOutcomes.
Import Analyzer Spec Extra.

Lemma jsstring_eqb_eq (a b : jsstring) :
  Handler.jsstring_eqb a b = true <-> a = b.
Proof.
  revert b. induction a as [|x a IH]; intros [|y b]; cbn;
    try (split; [discriminate|discriminate]); [tauto|].
  rewrite andb_true_iff, N.eqb_eq, IH. split.
  - intros [-> ->]. reflexivity.
  - intros E. injection E as -> ->. auto.
Qed.

Ltac handler_cases request :=
  destruct request as [m [[[source|] lang t]|err]];
  unfold Handler.handleExecute, reaches_executor, code_of, timeout_of,
    with_timeout;
  cbn [Handler.method Handler.json Handler.code Handler.language
       Handler.timeout];
  destruct (Handler.jsstring_eqb m (js "POST"));
  cbn [negb andb];
  try destruct (Handler.is_empty source);
  try destruct (Handler.unsupported lang);
  cbn [negb andb].

(** X14.  A request that fails the method, body, code or language check,
    or whose code the analysis blocks, is answered without the engine:
    the response is the same for every engine and default timeout, and
    its status is 400, 405 or 500. *)
Theorem X14_refused_requests_never_run
        (e1 e2 : jsstring -> Executor.Script) (d1 d2 startTime now : Z)
        (request : Handler.Request) :
  reaches_executor request = false ->
  Handler.handleExecute e1 d1 startTime now request
  = Handler.handleExecute e2 d2 startTime now request
  /\ exists resp,
      Handler.handleExecute e1 d1 startTime now request = Some resp
      /\ (Handler.status resp = 400 \/ Handler.status resp = 405
          \/ Handler.status resp = 500)%Z.
Proof.
  handler_cases request; intros H;
    try (split; [reflexivity|eexists; split; [reflexivity|cbn; auto]]).
  rewrite H. cbn [negb].
  split; [reflexivity|eexists; split; [reflexivity|cbn; auto]].
Qed.




(** X17.  When the code hands to the race nothing that is still
    unsettled and leaves the race to the engine, neither the timeout of
    the request nor the default timeout changes the response. *)
Theorem X17_timeout_rarely_matters
        (engine : jsstring -> Executor.Script) (d1 d2 startTime now : Z)
        (t1 t2 : option Z) (request : Handler.Request) :
  settled_on_return (engine (code_of request)) = true ->
  Handler.handleExecute engine d1 startTime now (with_timeout t1 request)
  = Handler.handleExecute engine d2 startTime now (with_timeout t2 request).
Proof.
  handler_cases request; intros H; try reflexivity.
  destruct (allowed (analyzeSecurity source)); cbn [negb]; [|reflexivity].
  now rewrite (timeout_irrelevant (engine source)
                 (Handler.timeout_or t1 d1) (Handler.timeout_or t2 d2) H).
Qed.

(** X14 at a request whose code calls [eval], under two engines. *)
Lemma X14_blocked_request_never_runs :
  reaches_executor Inputs.blocked_request = false
  /\ Handler.handleExecute logging_engine 10 0 5 Inputs.blocked_request
     = Handler.handleExecute looping_engine 30 0 5 Inputs.blocked_request.
Proof.
  assert (H : reaches_executor Inputs.blocked_request = false)
    by (vm_compute; reflexivity).
  split; [exact H|].
  exact (proj1 (@X14_refused_requests_never_run logging_engine looping_engine
                  10 30 0 5 Inputs.blocked_request H)).
Defined.


(** X17 at a harmless request with timeouts of one and thirty seconds. *)
Lemma X17_harmless_request_any_timeout :
  settled_on_return (logging_engine (code_of (post "let x = 1;" None))) = true
  /\ Handler.handleExecute logging_engine 10 0 5
                           (with_timeout (Some 1%Z) (post "let x = 1;" None))
     = Handler.handleExecute logging_engine 20 0 5
                             (with_timeout (Some 30%Z)
                                           (post "let x = 1;" None)).
Proof.
  split; [reflexivity|].
  exact (@X17_timeout_rarely_matters logging_engine 10 20 0 5
           (Some 1%Z) (Some 30%Z) (post "let x = 1;" None) eq_refl).
Defined.

End HandlerOutcomes.

(* ================================================================= *)
(** ** Properties of the worker *)

Section WorkerProperties.
Import Analyzer Extra.

(** X18.  The routes that the 404 answer advertises are exactly the paths
    that [fetch] serves: for a request that is not a preflight, the
    answer is the 404 one precisely when the path is not in the list. *)
Theorem X18_advertised_routes_are_served
        (engine : jsstring -> Executor.Script) (env : Worker.Env)
        (startTime now : Z) (path : jsstring) (request : Handler.Request) :
  Handler.method request <> js "OPTIONS" ->
  ((exists e m rs,
       Worker.fetch engine env startTime now path request
       = Some (Worker.NotFound e m rs))
   <-> ~ In path Worker.available_routes).
Proof.
  intros Hm. unfold Worker.fetch.
  destruct (Handler.jsstring_eqb (Handler.method request) (js "OPTIONS"))
    eqn:Eo; [apply jsstring_eqb_eq in Eo; contradiction|].
  assert (Hyes : forall p, In (js p) Worker.available_routes ->
                           ~ ~ In (js p) Worker.available_routes) by tauto.
  assert (Hcase : forall p b, Handler.jsstring_eqb path (js p) = b ->
                              if b then path = js p else path <> js p).
  { intros p [] E; [now apply jsstring_eqb_eq|].
    intros ->. enough (Handler.jsstring_eqb (js p) (js p) = true)
      by congruence. now apply jsstring_eqb_eq. }
  destruct (Handler.jsstring_eqb path (js "/")) eqn:E1;
    [apply Hcase in E1; subst path; split;
     [intros [e [m [rs H]]]; discriminate
     |intros H; exfalso; apply H; cbn; tauto]|].
  destruct (Handler.jsstring_eqb path (js "/execute")) eqn:E2;
    [apply Hcase in E2; subst path; split;
     [intros [e [m [rs H]]];
      destruct (Handler.handleExecute engine (Worker.MAX_EXECUTION_TIME env)
                  startTime now request); discriminate
     |intros H; exfalso; apply H; cbn; tauto]|].
  destruct (Handler.jsstring_eqb path (js "/languages")) eqn:E3;
    [apply Hcase in E3; subst path; split;
     [intros [e [m [rs H]]]; discriminate
     |intros H; exfalso; apply H; cbn; tauto]|].
  destruct (Handler.jsstring_eqb path (js "/security/policy")) eqn:E4;
    [apply Hcase in E4; subst path; split;
     [intros [e [m [rs H]]]; discriminate
     |intros H; exfalso; apply H; cbn; tauto]|].
  destruct (Handler.jsstring_eqb path (js "/health")) eqn:E5;
    [apply Hcase in E5; subst path; split;
     [intros [e [m [rs H]]]; discriminate
     |intros H; exfalso; apply H; cbn; tauto]|].
  destruct (Handler.jsstring_eqb path (js "/ui")) eqn:E6;
    [apply Hcase in E6; subst path; split;
     [intros [e [m [rs H]]]; discriminate
     |intros H; exfalso; apply H; cbn; tauto]|].
  apply Hcase in E1, E2, E3, E4, E5, E6. split.
  - intros _ Hin. unfold Worker.available_routes in Hin.
    cbn [List.map In] in Hin. intuition congruence.
  - intros _. eauto.
Qed.

(** X18 at a path that is not served. *)
Lemma X18_unknown_path_not_found :
  Handler.method (post "1" None) <> js "OPTIONS"
  /\ ~ In (js "/unknown") Worker.available_routes.
Proof.
  assert (H : Handler.method (post "1" None) <> js "OPTIONS")
    by (vm_compute; discriminate).
  split; [exact H|].
  apply (proj1 (@X18_advertised_routes_are_served logging_engine
                  {| Worker.ENVIRONMENT := []; Worker.MAX_EXECUTION_TIME := 10;
                     Worker.MAX_MEMORY_MB := 128 |}
                  0 5 (js "/unknown") (post "1" None) H)).
  do 3 eexists. reflexivity.
Defined.

(** X19.  The languages endpoint and the handler agree: [handleExecute]
    accepts a language name exactly when [handleLanguages] lists it as
    available. *)
Theorem X19_available_languages_are_accepted (lang : jsstring) :
  lang <> [] ->
  (Handler.unsupported (Some lang) = false
   <-> exists l, In l Worker.handleLanguages
                 /\ Worker.name l = lang /\ Worker.available l = true).
Proof.
  intros Hne. destruct lang as [|c lang]; [contradiction|].
  cbn [Handler.unsupported]. rewrite negb_false_iff, jsstring_eqb_eq. split.
  - intros ->. eexists. split; [left; reflexivity|]. split; reflexivity.
  - intros [l [Hl [Hn Ha]]]. cbn in Hl.
    destruct Hl as [<-|[<-|[<-|[]]]]; cbn in Ha; try discriminate.
    now rewrite <- Hn.
Qed.

(** X19 at [javascript]. *)
Lemma X19_javascript_accepted :
  js "javascript" <> []
  /\ Handler.unsupported (Some (js "javascript")) = false.
Proof.
  assert (H : js "javascript" <> []) by (vm_compute; discriminate).
  split; [exact H|].
  apply (proj2 (@X19_available_languages_are_accepted (js "javascript") H)).
  eexists. split; [left; reflexivity|]. split; reflexivity.
Defined.

(** X20.  The number of patterns that the policy endpoint reports is the
    number of rules the analyzer checks, and the execution time it
    reports is the default that [fetch] hands to [handleExecute]. *)
Theorem X20_policy_matches_analyzer
        (engine : jsstring -> Executor.Script) (env : Worker.Env)
        (startTime now : Z) (request : Handler.Request) :
  Worker.dangerous_patterns_count (Worker.handleSecurityPolicy env)
  = Z.of_nat (List.length dangerousPatterns)
  /\ (Handler.method request <> js "OPTIONS" ->
      Worker.fetch engine env startTime now (js "/execute") request
      = option_map Worker.Execute
          (Handler.handleExecute engine
             (Worker.max_execution_time (Worker.handleSecurityPolicy env))
             startTime now request)).
Proof.
  split; [reflexivity|]. intros Hm. unfold Worker.fetch.
  destruct (Handler.jsstring_eqb (Handler.method request) (js "OPTIONS"))
    eqn:Eo; [apply jsstring_eqb_eq in Eo; contradiction|].
  reflexivity.
Qed.

(** X20 at a POST to the execute route. *)
Lemma X20_execute_route_uses_policy_default :
  Handler.method (post "let x = 1;" None) <> js "OPTIONS"
  /\ Worker.fetch logging_engine
       {| Worker.ENVIRONMENT := []; Worker.MAX_EXECUTION_TIME := 10;
          Worker.MAX_MEMORY_MB := 128 |}
       0 5 (js "/execute") (post "let x = 1;" None)
     = option_map Worker.Execute
         (Handler.handleExecute logging_engine 10 0 5
                                (post "let x = 1;" None)).
Proof.
  assert (H : Handler.method (post "let x = 1;" None) <> js "OPTIONS")
    by (vm_compute; discriminate).
  split; [exact H|].
  exact (proj2 (@X20_policy_matches_analyzer logging_engine
                  {| Worker.ENVIRONMENT := []; Worker.MAX_EXECUTION_TIME := 10;
                     Worker.MAX_MEMORY_MB := 128 |}
                  0 5 (post "let x = 1;" None)) H).
Defined.

End WorkerProperties.

(* ================================================================= *)
(** ** Properties of the hash encoding *)

Section HashProperties.
Import Extra.

Lemma hex_pair (b : Byte.byte) :
  Hash.padStart2 (Hash.toString16 b)
  = [Hash.hex_digit (Byte.to_N b / 16); Hash.hex_digit (Byte.to_N b mod 16)].
Proof. destruct b; reflexivity. Qed.

Lemma join_empty_separator (parts : list jsstring) :
  JsString.join [] parts = List.concat parts.
Proof.
  induction parts as [|p parts IH]; [reflexivity|].
  destruct parts as [|q parts].
  - cbn. symmetry. apply app_nil_r.
  - change (JsString.join [] (p :: q :: parts))
      with (p ++ [] ++ JsString.join [] (q :: parts)).
    rewrite IH. reflexivity.
Qed.

Lemma hex_cons (b : Byte.byte) (bs : list Byte.byte) :
  Hash.hex (b :: bs)
  = Hash.hex_digit (Byte.to_N b / 16)
    :: Hash.hex_digit (Byte.to_N b mod 16) :: Hash.hex bs.
Proof.
  unfold Hash.hex. rewrite !join_empty_separator.
  cbn [List.map concat]. now rewrite hex_pair.
Qed.

Lemma hex_digit_is_hex (d : N) :
  (d < 16)%N -> is_hex_digit (Hash.hex_digit d) = true.
Proof.
  intros H. unfold is_hex_digit, Hash.hex_digit.
  destruct (N.ltb d 10) eqn:E.
  - apply N.ltb_lt in E. apply orb_true_iff. left.
    apply andb_true_iff. split; apply N.leb_le; lia.
  - apply N.ltb_ge in E. apply orb_true_iff. right.
    apply andb_true_iff. split; apply N.leb_le; lia.
Qed.

Lemma hex_digit_inj (d d' : N) :
  (d < 16)%N -> (d' < 16)%N ->
  Hash.hex_digit d = Hash.hex_digit d' -> d = d'.
Proof.
  unfold Hash.hex_digit. intros H H'.
  destruct (N.ltb d 10) eqn:E, (N.ltb d' 10) eqn:E';
    try apply N.ltb_lt in E; try apply N.ltb_ge in E;
    try apply N.ltb_lt in E'; try apply N.ltb_ge in E'; lia.
Qed.

Lemma byte_halves (b : Byte.byte) :
  (Byte.to_N b / 16 < 16)%N /\ (Byte.to_N b mod 16 < 16)%N.
Proof.
  pose proof (Byte.to_N_bounded b) as Hb. split.
  - apply N.Div0.div_lt_upper_bound. lia.
  - apply N.mod_lt. discriminate.
Qed.

Lemma to_N_inj (b b' : Byte.byte) : Byte.to_N b = Byte.to_N b' -> b = b'.
Proof.
  intros H. pose proof (Byte.of_to_N b) as E. rewrite H in E.
  rewrite Byte.of_to_N in E. now injection E.
Qed.

(** X21.  The hash written to the execution log has two characters per
    byte of the digest, all of them decimal digits or lower-case letters
    from a to f; for a digest of 32 bytes it has 64 characters. *)
Theorem X21_hash_is_lower_case_hex
        (digest : jsstring -> list Byte.byte) (str : jsstring) :
  List.length (Hash.hashCode digest str) = (2 * List.length (digest str))%nat
  /\ Forall (fun c => is_hex_digit c = true) (Hash.hashCode digest str)
  /\ (List.length (digest str) = 32%nat ->
      List.length (Hash.hashCode digest str) = 64%nat).
Proof.
  unfold Hash.hashCode.
  assert (Hlen : forall bs, List.length (Hash.hex bs)
                            = (2 * List.length bs)%nat).
  { induction bs as [|b bs IH]; [reflexivity|].
    rewrite hex_cons. cbn [List.length]. rewrite IH. lia. }
  split; [apply Hlen|]. split.
  - induction (digest str) as [|b bs IH]; [constructor|].
    rewrite hex_cons. destruct (byte_halves b) as [H1 H2].
    repeat constructor; auto using hex_digit_is_hex.
  - intros H. rewrite Hlen, H. reflexivity.
Qed.

(** X22.  The hexadecimal encoding loses nothing: two byte sequences
    with the same encoding are equal, so two sources have the same hash
    only if they have the same digest. *)
Theorem X22_hex_is_injective
        (digest : jsstring -> list Byte.byte) (s1 s2 : jsstring) :
  Hash.hashCode digest s1 = Hash.hashCode digest s2 ->
  digest s1 = digest s2.
Proof.
  unfold Hash.hashCode.
  generalize (digest s2). induction (digest s1) as [|b bs IH];
    intros [|b' bs'] H.
  - reflexivity.
  - rewrite hex_cons in H. discriminate.
  - rewrite hex_cons in H. discriminate.
  - rewrite !hex_cons in H. injection H as Hhi Hlo Hrest.
    destruct (byte_halves b) as [H1 H2], (byte_halves b') as [H1' H2'].
    apply hex_digit_inj in Hhi; [|assumption|assumption].
    apply hex_digit_inj in Hlo; [|assumption|assumption].
    f_equal; [|now apply IH].
    apply to_N_inj.
    rewrite (N.div_mod (Byte.to_N b) 16), (N.div_mod (Byte.to_N b') 16)
      by discriminate.
    now rewrite Hhi, Hlo.
Qed.

(** X21 at a digest of 32 equal bytes. *)
Lemma X21_hash_has_64_characters :
  List.length (first_unit_digest (js "a")) = 32%nat
  /\ List.length (Hash.hashCode first_unit_digest (js "a")) = 64%nat.
Proof.
  split; [reflexivity|].
  exact (proj2 (proj2 (@X21_hash_is_lower_case_hex first_unit_digest
                         (js "a"))) eq_refl).
Defined.

(** X22 at two texts with the same first code unit. *)
Lemma X22_equal_hashes_equal_digests :
  Hash.hashCode first_unit_digest (js "a")
  = Hash.hashCode first_unit_digest (js "ab")
  /\ first_unit_digest (js "a") = first_unit_digest (js "ab").
Proof.
  assert (H : Hash.hashCode first_unit_digest (js "a")
              = Hash.hashCode first_unit_digest (js "ab"))
    by (vm_compute; reflexivity).
  split; [exact H|].
  exact (@X22_hex_is_injective first_unit_digest (js "a") (js "ab") H).
Defined.

End HashProperties.

